(** * ytdl_helper: a command-line wrapper around yt-dlp

    Shallow embedding of [ytdl_helper.py] and the properties its
    specification states about it.

    The module has five functions: [progress_hook], [build_ytdl_opts],
    [download_videos], [parse_args] and [main].  Each is translated below
    under its own name.  Two collaborators live outside the repository:

    - [yt_dlp] (the download library) is an interface, [environment]:
      the calls the module makes on it are fields whose results the
      module cannot predict (each may return or raise), so every
      statement about [download_videos] and [main] quantifies over all
      implementations of the interface;
    - [argparse] (standard library) is modelled by [ArgParse], an
      executable rendering of [ArgumentParser.parse_args] of CPython 3.11
      for parsers made of one-argument options, flags, the help flag and
      a positional with [nargs='+'], which is what [parse_args] builds.

    Effects are explicit: every logging call, write to stdout and library
    call appends an [event] to a trace, in program order.  A logging call
    is recorded as the call; whether a record is emitted depends on the
    level configured, which is outside the module. *)

From Stdlib Require Import ZArith Ascii String List Bool Lia Floats.
From stdpp Require Import gmap strings list fin_maps.

Set Warnings "-register-all".
#[local] Open Scope string_scope.
#[local] Open Scope list_scope.
#[local] Open Scope Z_scope.

(* ===================================================================== *)
(** ** Python strings *)
(* ===================================================================== *)

(** A Python [str] is a sequence of Unicode code points. *)
Definition pystr : Type := list N.

(** A string literal of the source (all of them are ASCII). *)
Definition lit (s : string) : pystr := N_of_ascii <$> list_ascii_of_string s.

Module Str.

(** [str.isspace] on one code point, which is also the set that
    [str.strip()] removes: the ASCII controls 9..13 and 28..31, the
    space, U+0085, U+00A0, U+1680, U+2000..U+200A, U+2028, U+2029,
    U+202F, U+205F and U+3000. *)
Definition isspace (c : N) : bool :=
  ((9 <=? c) && (c <=? 13) || (28 <=? c) && (c <=? 32)
   || (c =? 133) || (c =? 160) || (c =? 5760)
   || (8192 <=? c) && (c <=? 8202)
   || (c =? 8232) || (c =? 8233) || (c =? 8239) || (c =? 8287)
   || (c =? 12288))%N.

Fixpoint lstrip (s : pystr) : pystr :=
  match s with
  | [] => []
  | c :: r => if isspace c then lstrip r else s
  end.

Definition rstrip (s : pystr) : pystr := rev (lstrip (rev s)).

(** [s.strip()] *)
Definition strip (s : pystr) : pystr := rstrip (lstrip s).

(** [s.split(sep)] for a one-character separator: always at least one
    piece, empty pieces kept. *)
Fixpoint split (sep : N) (s : pystr) : list pystr :=
  match s with
  | [] => [[]]
  | c :: r =>
      if (c =? sep)%N then [] :: split sep r
      else match split sep r with
           | p :: ps => (c :: p) :: ps
           | [] => [[c]]
           end
  end.

(** [sep.join(parts)] *)
Fixpoint join (sep : pystr) (parts : list pystr) : pystr :=
  match parts with
  | [] => []
  | [p] => p
  | p :: ps => p ++ sep ++ join sep ps
  end.

Fixpoint eqb (s t : pystr) : bool :=
  match s, t with
  | [], [] => true
  | c :: s', d :: t' => (c =? d)%N && eqb s' t'
  | _, _ => false
  end.

(** [s.startswith(p)] *)
Fixpoint startswith (s p : pystr) : bool :=
  match p, s with
  | [], _ => true
  | d :: p', c :: s' => (c =? d)%N && startswith s' p'
  | _ :: _, [] => false
  end.

(** [x in xs] for a list of strings *)
Definition mem (x : pystr) (xs : list pystr) : bool := existsb (eqb x) xs.

(** Truth value of a string: non-empty. *)
Definition truthy (s : pystr) : bool :=
  match s with [] => false | _ :: _ => true end.

(** No white space at either end. *)
Definition trimmed (s : pystr) : Prop :=
  (forall c, head s = Some c -> isspace c = false) /\
  (forall c, last s = Some c -> isspace c = false).

End Str.

(** Truth value of an optional string ([None] and [''] are false). *)
Definition opt_truthy (o : option pystr) : bool :=
  match o with
  | Some s => Str.truthy s
  | None => false
  end.

(* ===================================================================== *)
(** ** Python values, exceptions and effects *)
(* ===================================================================== *)

(** An exception object.  [Exception cls] is an instance of the class
    [cls], which is [Exception] or derives from it: what
    [except Exception] catches.  The others derive from [BaseException]
    only: [KeyboardInterrupt] (an instance of that class, which the
    guard of lines 359-363 catches) and [BaseException cls] for the rest
    ([GeneratorExit], a [SystemExit] raised by the library).  The
    [SystemExit] that [argparse] raises to leave the program is the
    [Exits] outcome below.  An interrupt reaches the module as the
    exception of the library call in progress. *)
Inductive exn :=
| Exception (cls : string)
| KeyboardInterrupt
| BaseException (cls : string).

(** [isinstance(e, Exception)] *)
Definition is_Exception (e : exn) : bool :=
  match e with
  | Exception _ => true
  | KeyboardInterrupt | BaseException _ => false
  end.

(** The values that occur in the option map and in the event
    dictionaries of the progress hook.  A Python [float] is a binary64
    number, with the arithmetic of IEEE 754. *)
Inductive pyval :=
| VNone
| VBool (b : bool)
| VInt (z : Z)
| VFloat (f : float)
| VStr (s : pystr)
| VList (l : list pyval)
| VDict (m : gmap string pyval)
| VCallable (name : string)
| VExc (e : exn).

(** A dictionary with string keys. *)
Abbreviation dict := (gmap string pyval).

(** [{k1: v1, ...}] and repeated [d[k] = v]: later entries win. *)
Definition dict_of (kvs : list (string * pyval)) : dict :=
  fold_left (fun m kv => <[kv.1 := kv.2]> m) kvs ∅.

(** [bool(v)] *)
Definition truthy (v : pyval) : bool :=
  match v with
  | VNone => false
  | VBool b => b
  | VInt z => negb (z =? 0)
  | VFloat f => negb (PrimFloat.eqb f 0)
  | VStr s => Str.truthy s
  | VList l => match l with [] => false | _ :: _ => true end
  | VDict m => match map_to_list m with [] => false | _ :: _ => true end
  | VCallable _ => true
  | VExc _ => true
  end.

(** [a or b] *)
Definition py_or (a b : pyval) : pyval := if truthy a then a else b.

(** [d.get(k)] and [d.get(k, dflt)] *)
Definition get (d : dict) (k : string) : pyval := default VNone (d !! k).
Definition get_or (d : dict) (k : string) (dflt : pyval) : pyval :=
  default dflt (d !! k).

(** [v == 'literal'] *)
Definition eq_str (v : pyval) (s : string) : bool :=
  match v with
  | VStr t => Str.eqb t (lit s)
  | _ => false
  end.

(** Lists and dictionaries cannot be hashed. *)
Definition hashable (v : pyval) : bool :=
  match v with
  | VList _ | VDict _ => false
  | _ => true
  end.

(** The number a value stands for in arithmetic: an [int] ([bool] is a
    subclass of [int]) or a [float]; [None] for the other types. *)
Inductive num :=
| Int (z : Z)
| Float (f : float).

Definition number (v : pyval) : option num :=
  match v with
  | VBool b => Some (Int (if b then 1 else 0))
  | VInt z => Some (Int z)
  | VFloat f => Some (Float f)
  | _ => None
  end.

(** What a call yields: a value, a raised exception, or [SystemExit]. *)
Inductive outcome (A : Type) :=
| Returns (a : A)
| Raises (e : exn)
| Exits (status : Z).
Arguments Returns {A} a.
Arguments Raises {A} e.
Arguments Exits {A} status.

(** The double nearest to [m * 2^e], ties to even; infinite when the
    magnitude is beyond the range of a double. *)
Definition nearest_float (m e : Z) (negative_zero : bool) : float :=
  SF2Prim (binary_normalize prec emax m e negative_zero).

(** [float(z)] for an [int]: the nearest double, [OverflowError] beyond
    the range. *)
Definition float_of_int (z : Z) : outcome float :=
  let f := nearest_float z 0 false in
  if is_infinity f then Raises (Exception "OverflowError") else Returns f.

Definition to_float (n : num) : outcome float :=
  match n with
  | Int z => float_of_int z
  | Float f => Returns f
  end.

(** [a / b] for two [int]s, [b] not zero: the double nearest to the
    quotient, [OverflowError] beyond the range.  The quotient is taken
    with more than 64 significant bits and one sticky bit for the
    remainder, and then rounded. *)
Definition int_truediv (a b : Z) : outcome float :=
  let negative := xorb (a <? 0) (b <? 0) in
  let k := Z.max 0 (64 + Z.log2 (Z.abs b) - Z.log2 (Z.abs a)) in
  let n := Z.abs a * 2 ^ k in
  let m := 2 * (n / Z.abs b) + (if n mod Z.abs b =? 0 then 0 else 1) in
  let f := nearest_float (if negative then - m else m) (- k - 1) negative in
  if is_infinity f then Raises (Exception "OverflowError") else Returns f.

Definition is_zero (n : num) : bool :=
  match n with
  | Int z => z =? 0
  | Float f => PrimFloat.eqb f 0
  end.

(** [a / b] (true division).  Two [int]s give the correctly rounded
    quotient; otherwise both operands are converted to [float], the
    left one first, and divided as doubles (an [int] converts to zero
    only if it is zero). *)
Definition truediv (a b : pyval) : outcome float :=
  match number a, number b with
  | Some (Int x), Some (Int y) =>
      if y =? 0 then Raises (Exception "ZeroDivisionError")
      else int_truediv x y
  | Some x, Some y =>
      match to_float x with
      | Returns fx =>
          match to_float y with
          | Returns fy =>
              if is_zero y then Raises (Exception "ZeroDivisionError")
              else Returns (fx / fy)%float
          | Raises e => Raises e
          | Exits s => Exits s
          end
      | Raises e => Raises e
      | Exits s => Exits s
      end
  | _, _ => Raises (Exception "TypeError")
  end.

(** [format(v, '.0f')] and the like: the presentation type [f] is
    defined for numbers only, and an [int] is converted to [float]
    first.  The digits are not rendered; the result is the double to
    print. *)
Definition format_f (v : pyval) : outcome float :=
  match v with
  | VStr _ => Raises (Exception "ValueError")
  | _ => match number v with
         | Some x => to_float x
         | None => Raises (Exception "TypeError")
         end
  end.

(** [str(v)] and [repr(v)] raise [ValueError] for an [int] of more than
    4300 decimal digits ([sys.int_info.default_max_str_digits]), also
    when it sits in a list or in a dictionary; [unprintable v] tells
    whether [v] holds such an [int]. *)
Fixpoint unprintable (v : pyval) : bool :=
  match v with
  | VInt z => 10 ^ 4300 <=? Z.abs z
  | VList l => existsb unprintable l
  | VDict m => map_fold (fun _ x b => unprintable x || b) false m
  | _ => false
  end.

(** The text written by [progress_hook], lines 62-64:
    [f'\rProgress {pct:5.1f}%  Speed {speed:.0f}B/s  ETA {eta}s'], kept
    as its three interpolated values. *)
Inductive text := ProgressLine (pct speed : float) (eta : pyval).

Inductive logcall := debug | info | warning | exception.

(** Why [argparse] leaves the program with status 2. *)
Inductive arg_error :=
| ambiguous_option (arg : pystr)
| expected_one_argument (option_string : pystr)
| ignored_explicit_argument (explicit_arg : pystr)
| invalid_choice (value : pystr)
| required_urls
| unrecognized_arguments (extras : list pystr).

(** What a library call yields: a value or a raised exception. *)
Inductive call (A : Type) :=
| Return (a : A)
| Raise (e : exn).
Arguments Return {A} a.
Arguments Raise {A} e.

(** Observable steps, in program order. *)
Inductive event :=
| Stdout_write (t : text)                       (* sys.stdout.write *)
| Stdout_flush                                  (* sys.stdout.flush *)
| Log (f : logcall) (fmt : string) (args : list pyval)   (* logging.f(fmt, *args) *)
| BasicConfig (level : pystr)                   (* logging.basicConfig(level=getattr(logging, level), ...) *)
| Print_help                                    (* argparse: -h *)
| Print_error (e : arg_error)                   (* argparse: parser.error *)
| OS_isfile (path : pystr) (answer : bool)      (* os.path.isfile *)
| Lib_YoutubeDL (ydl_opts : dict) (r : call unit)        (* yt_dlp.YoutubeDL(ydl_opts), entering the with block *)
| Lib_extract_info (url : pystr) (r : call pyval)        (* ydl.extract_info(url, download=True) *)
| Lib_prepare_filename (info_ : pyval) (r : call pystr)  (* ydl.prepare_filename(info) *)
| Lib_close (r : call unit).                    (* leaving the with block *)

(* ===================================================================== *)
(** ** progress_hook (lines 35-69) *)
(* ===================================================================== *)

(** The message of line 69. *)
Definition processed_msg : string := "Processed: %s".

(** The hook is called by the library, so it is given as the events it
    produces and its outcome.  The f-string of line 63 formats [pct]
    (a [float], which cannot fail), then [speed], then [eta]; the text
    is written once all three are formatted, and [sys.stdout] is taken
    to accept it. *)
Definition progress_hook (d : dict) : list event * outcome unit :=
  if eq_str (get d "status") "downloading" then
    let total := py_or (get d "total_bytes") (get d "total_bytes_estimate") in
    let downloaded := get_or d "downloaded_bytes" (VInt 0) in
    if truthy total then
      match truediv downloaded total with
      | Returns ratio =>
          let pct := (ratio * 100)%float in
          let speed := get_or d "speed" (VInt 0) in
          let eta := get_or d "eta" (VInt 0) in
          match format_f speed with
          | Returns speed_f =>
              if unprintable eta then ([], Raises (Exception "ValueError"))
              else
                ([Stdout_write (ProgressLine pct speed_f eta); Stdout_flush],
                 Returns tt)
          | Raises e => ([], Raises e)
          | Exits s => ([], Exits s)
          end
      | Raises e => ([], Raises e)
      | Exits s => ([], Exits s)
      end
    else ([], Returns tt)
  else if negb (hashable (get d "status")) then
    ([], Raises (Exception "TypeError"))
  else if eq_str (get d "status") "finished"
          || eq_str (get d "status") "post_process" then
    let filename :=
      if truthy (get d "filename") then Returns (get d "filename")
      else match get_or d "info_dict" (VDict ∅) with
           | VDict info_dict => Returns (get info_dict "_filename")
           | _ => Raises (Exception "AttributeError")
           end in
    match filename with
    | Returns filename =>
        if truthy filename
        then ([Log info processed_msg [filename]], Returns tt)
        else ([], Returns tt)
    | Raises e => ([], Raises e)
    | Exits s => ([], Exits s)
    end
  else ([], Returns tt).

(* ===================================================================== *)
(** ** build_ytdl_opts (lines 72-165) *)
(* ===================================================================== *)

Definition postprocessors : pyval :=
  VList
    [ VDict (dict_of [("key", VStr (lit "FFmpegVideoRemuxer"));
                      ("preferedformat", VStr (lit "mp4"))]);
      VDict (dict_of [("key", VStr (lit "FFmpegThumbnailsConvertor"));
                      ("format", VStr (lit "jpg"))]);
      VDict (dict_of [("key", VStr (lit "EmbedThumbnail"));
                      ("already_have_thumbnail", VBool true)]);
      VDict (dict_of [("key", VStr (lit "FFmpegMetadata"))]) ].

(** [d[k] = v] when the optional string is truthy. *)
Definition set_if_str (k : string) (o : option pystr) (d : dict) : dict :=
  match o with
  | Some s => if Str.truthy s then <[k := VStr s]> d else d
  | None => d
  end.

(** [d[k] = True] when the flag is set. *)
Definition set_if (k : string) (b : bool) (d : dict) : dict :=
  if b then <[k := VBool true]> d else d.

(** The dictionary display of lines 119-145. *)
Definition ydl_opts_display (output_dir : option pystr) (langs : list pystr)
    (quiet : bool) : dict :=
  dict_of
    ([ ("outtmpl", VStr (lit "%(uploader)s - %(title)s.%(ext)s"));
       ("windowsfilenames", VBool true) ]
     ++ match output_dir with
        | Some o =>
            if Str.truthy o
            then [("paths", VDict (dict_of [("home", VStr o)]))]
            else []
        | None => []
        end
     ++ [ ("format", VStr (lit "bv*+ba/b"));
          ("merge_output_format", VStr (lit "mp4"));
          ("writesubtitles", VBool true);
          ("embedsubtitles", VBool true);
          ("subtitleslangs", VList (VStr <$> langs));
          ("subtitlesformat", VStr (lit "srt/best"));
          ("writethumbnail", VBool true);
          ("embedthumbnail", VBool true);
          ("retries", VInt 10);
          ("fragment_retries", VInt 10);
          ("continuedl", VBool true);
          ("concurrent_fragment_downloads", VInt 5);
          ("quiet", VBool quiet);
          ("no_warnings", VBool false);
          ("ignoreerrors", VBool false);
          ("progress_hooks", VList [VCallable "progress_hook"]);
          ("postprocessors", postprocessors) ]).

Definition build_ytdl_opts
    (output_dir cookies_file : option pystr) (langs : list pystr)
    (ffmpeg_location : option pystr) (quiet auto_sub no_playlist : bool)
    (playlist_items : option pystr) (write_infojson clean_infojson : bool)
    : dict :=
  let ydl_opts := ydl_opts_display output_dir langs quiet in
  let ydl_opts := set_if_str "cookiefile" cookies_file ydl_opts in
  let ydl_opts := set_if_str "ffmpeg_location" ffmpeg_location ydl_opts in
  let ydl_opts := set_if "writeautomaticsub" auto_sub ydl_opts in
  let ydl_opts := set_if "noplaylist" no_playlist ydl_opts in
  let ydl_opts := set_if_str "playlist_items" playlist_items ydl_opts in
  let ydl_opts :=
    if write_infojson
    then set_if "clean_infojson" clean_infojson
           (<["writeinfojson" := VBool true]> ydl_opts)
    else ydl_opts in
  ydl_opts.

(* ===================================================================== *)
(** ** The namespace of parsed arguments *)
(* ===================================================================== *)

(** What the store action of an option leaves in its attribute: the
    string given on the command line, or the empty list when that
    string is [--] (see [ArgParse.take_action]). *)
Inductive stored :=
| Text (s : pystr)
| Empty_list.

(** Truth value of an attribute ([None], [''] and [[]] are false). *)
Definition attr_truthy (o : option stored) : bool :=
  match o with
  | Some (Text s) => Str.truthy s
  | Some Empty_list | None => false
  end.

(** An attribute as an argument of type [Optional[str]].  The functions
    that receive one, [build_ytdl_opts] and the conditional expression
    of lines 196-198, only test the truth of a value that is not a
    string, so the empty list is passed on as [None]. *)
Definition optional_str (o : option stored) : option pystr :=
  match o with
  | Some (Text s) => Some s
  | Some Empty_list | None => None
  end.

(** [argparse.Namespace] with the attributes [parse_args] declares.  The
    attribute [langs] holds what the parser stored when [argparse]
    returns and a list of [str] after line 319, hence the parameter. *)
Record Namespace (L : Type) := {
  urls : list pystr;
  output_dir : option stored;
  cookies : option stored;
  langs : L;
  ffmpeg : option stored;
  quiet : bool;
  log_level : stored;
  auto_sub : bool;
  no_playlist : bool;
  playlist_items : option stored;
  write_infojson : bool;
  clean_infojson : bool
}.
Arguments urls {L} _.
Arguments output_dir {L} _.
Arguments cookies {L} _.
Arguments langs {L} _.
Arguments ffmpeg {L} _.
Arguments quiet {L} _.
Arguments log_level {L} _.
Arguments auto_sub {L} _.
Arguments no_playlist {L} _.
Arguments playlist_items {L} _.
Arguments write_infojson {L} _.
Arguments clean_infojson {L} _.

(* ===================================================================== *)
(** ** argparse, for the parser of parse_args (lines 265-317) *)
(* ===================================================================== *)

(** [ArgumentParser.parse_args] as CPython implements it, specialised to
    the kinds of argument [parse_args] declares.  Every argument string
    is first classified: ['A'] (an argument), ['O'] (an option string,
    with the action it selects and the value attached to it, if any) or
    ['-'] (the first [--]; all strings after it are ['A']).  The strings
    are then consumed from left to right: a run of arguments in front of
    an option, or at the end, goes to the positional [urls] if it is
    still unfilled and to the unrecognized extras otherwise; an option
    takes the next argument when it needs a value and none is attached.
    The decimal digits of the negative-number test are those of Unicode
    14, as in CPython 3.11. *)
Module ArgParse.

Inductive store_dest :=
| dest_output_dir | dest_cookies | dest_langs | dest_ffmpeg
| dest_log_level | dest_playlist_items.

Inductive flag_dest :=
| dest_quiet | dest_auto_sub | dest_no_playlist
| dest_write_infojson | dest_clean_infojson.

(** The actions of the optionals: [-h] (added by default), options
    that store one value, and [action='store_true'] flags. *)
Inductive action :=
| help
| store (d : store_dest)
| store_true (d : flag_dest).

(** [parser._option_string_actions], in the order of the
    [add_argument] calls. *)
Definition option_string_actions : list (pystr * action) :=
  [ (lit "-h", help); (lit "--help", help);
    (lit "-o", store dest_output_dir);
    (lit "--output-dir", store dest_output_dir);
    (lit "-c", store dest_cookies); (lit "--cookies", store dest_cookies);
    (lit "-l", store dest_langs); (lit "--langs", store dest_langs);
    (lit "--ffmpeg", store dest_ffmpeg);
    (lit "-q", store_true dest_quiet); (lit "--quiet", store_true dest_quiet);
    (lit "--log-level", store dest_log_level);
    (lit "--auto-sub", store_true dest_auto_sub);
    (lit "--no-playlist", store_true dest_no_playlist);
    (lit "--playlist-items", store dest_playlist_items);
    (lit "--write-infojson", store_true dest_write_infojson);
    (lit "--clean-infojson", store_true dest_clean_infojson) ].

Definition choices (d : store_dest) : option (list pystr) :=
  match d with
  | dest_log_level =>
      Some [lit "DEBUG"; lit "INFO"; lit "WARNING"; lit "ERROR"]
  | _ => None
  end.

(** The defaults of the [add_argument] calls; [urls] has none and is
    [None] until the positional is consumed. *)
Definition defaults : Namespace stored :=
  {| urls := []; output_dir := None; cookies := None;
     langs := Text (lit "zh-Hans,zh,zh-CN,en"); ffmpeg := None;
     quiet := false; log_level := Text (lit "INFO");
     auto_sub := false; no_playlist := false;
     playlist_items := None; write_infojson := false;
     clean_infojson := false |}.

Definition lookup (option_string : pystr) : option action :=
  snd <$> find (fun p => Str.eqb p.1 option_string) option_string_actions.

(** ['A'], ['O'], ['-'] *)
Inductive cls :=
| A
| O (a : option action) (option_string : pystr) (explicit_arg : option pystr)
| Dash.

(** [s.split('=', 1)] when ['=' in s] *)
Fixpoint split_eq (s : pystr) : option (pystr * pystr) :=
  match s with
  | [] => None
  | c :: r =>
      if (c =? 61)%N then Some ([], r)
      else match split_eq r with
           | Some (p, e) => Some (c :: p, e)
           | None => None
           end
  end.

(** [_get_option_tuples], for a string of at least two characters that
    starts with [-]. *)
Definition get_option_tuples (arg : pystr)
    : list (action * pystr * option pystr) :=
  match arg with
  | c0 :: c1 :: rest =>
      if (c1 =? 45)%N then
        let '(option_prefix, explicit_arg) :=
          match split_eq arg with
          | Some (p, e) => (p, Some e)
          | None => (arg, None)
          end in
        flat_map
          (fun '(option_string, a) =>
             if Str.startswith option_string option_prefix
             then [(a, option_string, explicit_arg)] else [])
          option_string_actions
      else
        flat_map
          (fun '(option_string, a) =>
             if Str.eqb option_string [c0; c1]
             then [(a, option_string, Some rest)]
             else if Str.startswith option_string arg
             then [(a, option_string, None)] else [])
          option_string_actions
  | _ => []
  end.

(** The code points that [\d] matches in a [str] pattern: the decimal
    digits of Unicode (category Nd), as ranges. *)
Definition decimal_digits : list (N * N) :=
  [ (48, 57); (1632, 1641); (1776, 1785); (1984, 1993); (2406, 2415);
    (2534, 2543); (2662, 2671); (2790, 2799); (2918, 2927); (3046, 3055);
    (3174, 3183); (3302, 3311); (3430, 3439); (3558, 3567); (3664, 3673);
    (3792, 3801); (3872, 3881); (4160, 4169); (4240, 4249); (6112, 6121);
    (6160, 6169); (6470, 6479); (6608, 6617); (6784, 6793); (6800, 6809);
    (6992, 7001); (7088, 7097); (7232, 7241); (7248, 7257);
    (42528, 42537); (43216, 43225); (43264, 43273); (43472, 43481);
    (43504, 43513); (43600, 43609); (44016, 44025); (65296, 65305);
    (66720, 66729); (68912, 68921); (69734, 69743); (69872, 69881);
    (69942, 69951); (70096, 70105); (70384, 70393); (70736, 70745);
    (70864, 70873); (71248, 71257); (71360, 71369); (71472, 71481);
    (71904, 71913); (72016, 72025); (72784, 72793); (73040, 73049);
    (73120, 73129); (92768, 92777); (92864, 92873); (93008, 93017);
    (120782, 120831); (123200, 123209); (123632, 123641);
    (125264, 125273); (130032, 130041) ]%N.

Definition is_digit (c : N) : bool :=
  existsb (fun r : N * N => (r.1 <=? c) && (c <=? r.2))%N decimal_digits.

Definition digits (s : pystr) : bool :=
  Str.truthy s && forallb is_digit s.

Fixpoint split_dot (s : pystr) : option (pystr * pystr) :=
  match s with
  | [] => None
  | c :: r =>
      if (c =? 46)%N then Some ([], r)
      else match split_dot r with
           | Some (p, e) => Some (c :: p, e)
           | None => None
           end
  end.

(** [^-\d+$|^-\d*\.\d+$]; [$] also matches in front of a final
    newline. *)
Definition negative_number (arg : pystr) : bool :=
  match arg with
  | 45%N :: body =>
      let number_like b :=
        digits b
        || match split_dot b with
           | Some (p, e) => forallb is_digit p && digits e
           | None => false
           end in
      number_like body
      || match rev body with
         | 10%N :: r => number_like (rev r)
         | _ => false
         end
  | _ => false
  end.

(** [_parse_optional]: [inr None] for a positional, [inr (Some _)] for
    an option string (the action, [None] when the parser has no such
    option, the option string and the attached value), [inl _] when
    the parser gives up. *)
Definition parse_optional (arg : pystr)
    : arg_error + option (option action * pystr * option pystr) :=
  match arg with
  | [] => inr None
  | c0 :: tl =>
      if negb (c0 =? 45)%N then inr None
      else match lookup arg with
      | Some a => inr (Some (Some a, arg, None))
      | None =>
          match tl with
          | [] => inr None
          | _ :: _ =>
              let with_eq :=
                match split_eq arg with
                | Some (option_string, explicit_arg) =>
                    match lookup option_string with
                    | Some a => Some (Some a, option_string, Some explicit_arg)
                    | None => None
                    end
                | None => None
                end in
              match with_eq with
              | Some o => inr (Some o)
              | None =>
                  match get_option_tuples arg with
                  | _ :: _ :: _ => inl (ambiguous_option arg)
                  | [(a, option_string, explicit_arg)] =>
                      inr (Some (Some a, option_string, explicit_arg))
                  | [] =>
                      if negative_number arg then inr None
                      else if existsb (N.eqb 32) arg then inr None
                      else inr (Some (None, arg, None))
                  end
              end
          end
      end
  end.

(** The pattern of the argument strings, each string with its class. *)
Fixpoint classify (args : list pystr) : arg_error + list (pystr * cls) :=
  match args with
  | [] => inr []
  | arg :: rest =>
      if Str.eqb arg (lit "--")
      then inr ((arg, Dash) :: map (fun s => (s, A)) rest)
      else match parse_optional arg with
           | inl e => inl e
           | inr c =>
               match classify rest with
               | inl e => inl e
               | inr p =>
                   inr ((arg, match c with
                              | Some (a, option_string, explicit_arg) =>
                                  O a option_string explicit_arg
                              | None => A
                              end) :: p)
               end
           end
  end.

(** How the parser leaves the program: after [-h] (status 0) or after
    an error (status 2). *)
Inductive leave :=
| Help
| Error (e : arg_error).

(** The state of [_parse_known_args]: the namespace, whether the
    positional [urls] is still in the list [positionals], and the
    unrecognized strings. *)
Record state := {
  namespace : Namespace stored;
  positionals : bool;
  extras : list pystr
}.

Definition initial : state :=
  {| namespace := defaults; positionals := true; extras := [] |}.

Definition set_urls (v : list pystr) (ns : Namespace stored) :=
  {| urls := v; output_dir := output_dir ns; cookies := cookies ns;
     langs := langs ns; ffmpeg := ffmpeg ns; quiet := quiet ns;
     log_level := log_level ns; auto_sub := auto_sub ns;
     no_playlist := no_playlist ns; playlist_items := playlist_items ns;
     write_infojson := write_infojson ns;
     clean_infojson := clean_infojson ns |}.

(** [setattr(namespace, dest, value)] of the store action *)
Definition set_store (d : store_dest) (v : stored) (ns : Namespace stored) :=
  {| urls := urls ns;
     output_dir := if d is dest_output_dir then Some v else output_dir ns;
     cookies := if d is dest_cookies then Some v else cookies ns;
     langs := if d is dest_langs then v else langs ns;
     ffmpeg := if d is dest_ffmpeg then Some v else ffmpeg ns;
     quiet := quiet ns;
     log_level := if d is dest_log_level then v else log_level ns;
     auto_sub := auto_sub ns; no_playlist := no_playlist ns;
     playlist_items :=
       if d is dest_playlist_items then Some v else playlist_items ns;
     write_infojson := write_infojson ns;
     clean_infojson := clean_infojson ns |}.

(** [setattr(namespace, dest, True)] of the store_true action *)
Definition set_flag (d : flag_dest) (ns : Namespace stored) :=
  {| urls := urls ns; output_dir := output_dir ns; cookies := cookies ns;
     langs := langs ns; ffmpeg := ffmpeg ns;
     quiet := if d is dest_quiet then true else quiet ns;
     log_level := log_level ns;
     auto_sub := if d is dest_auto_sub then true else auto_sub ns;
     no_playlist := if d is dest_no_playlist then true else no_playlist ns;
     playlist_items := playlist_items ns;
     write_infojson :=
       if d is dest_write_infojson then true else write_infojson ns;
     clean_infojson :=
       if d is dest_clean_infojson then true else clean_infojson ns |}.

Definition with_namespace (ns : Namespace stored) (st : state) : state :=
  {| namespace := ns; positionals := positionals st; extras := extras st |}.

Definition add_extras (xs : list pystr) (st : state) : state :=
  {| namespace := namespace st; positionals := positionals st;
     extras := extras st ++ xs |}.

(** [take_action] for an optional: [inl] when the parser leaves.
    [_get_values] first removes the string [--] from the strings of
    the action.  For a store action that leaves no string if the value
    was [--] (as in [--cookies=--]): the value is then the empty list,
    and no choice is checked. *)
Definition take_action (a : action) (value : option pystr) (st : state)
    : leave + state :=
  match a with
  | help => inl Help
  | store d =>
      let v := default [] value in
      if Str.eqb v (lit "--")
      then inr (with_namespace (set_store d Empty_list (namespace st)) st)
      else
        match choices d with
        | Some cs =>
            if Str.mem v cs
            then inr (with_namespace (set_store d (Text v) (namespace st)) st)
            else inl (Error (invalid_choice v))
        | None =>
            inr (with_namespace (set_store d (Text v) (namespace st)) st)
        end
  | store_true d => inr (with_namespace (set_flag d (namespace st)) st)
  end.

Fixpoint take_actions (tuples : list (action * option pystr)) (st : state)
    : leave + state :=
  match tuples with
  | [] => inr st
  | (a, v) :: rest =>
      match take_action a v st with
      | inl r => inl r
      | inr st' => take_actions rest st'
      end
  end.

(** Number of strings an action takes. *)
Definition takes_value (a : action) : bool :=
  match a with
  | store _ => true
  | _ => false
  end.

(** [option_string[1] not in chars] *)
Definition single_dash (option_string : pystr) : bool :=
  match option_string with
  | _ :: c1 :: _ => negb (c1 =? 45)%N
  | _ => false
  end.

(** The loop of [consume_optional] for an option string with an
    attached value: the value belongs to the option if it takes one;
    after a single-dash flag it is read as further single-dash options
    ([-qc file] is [-q -c file]).  Yields the actions to take with
    their values and, when the last option string has no value
    attached, that action and option string. *)
Fixpoint attached (a : action) (option_string explicit_arg : pystr)
    (acc : list (action * option pystr))
    : arg_error + (list (action * option pystr) * option (action * pystr)) :=
  if takes_value a then inr (acc ++ [(a, Some explicit_arg)], None)
  else
    match explicit_arg with
    | c :: new_explicit_arg =>
        if single_dash option_string then
          match lookup [45%N; c] with
          | Some a' =>
              match new_explicit_arg with
              | [] => inr (acc ++ [(a, None)], Some (a', [45%N; c]))
              | _ :: _ =>
                  attached a' [45%N; c] new_explicit_arg (acc ++ [(a, None)])
              end
          | None => inl (ignored_explicit_argument explicit_arg)
          end
        else inl (ignored_explicit_argument explicit_arg)
    | [] => inl (ignored_explicit_argument explicit_arg)
    end.

(** The pattern of a positional with [nargs='+'], matched at the start
    of a pattern: any number of ['-'], one ['A'], then any number of
    ['A'] and ['-'].  The number of pattern characters in the match, 0
    when there is none. *)
Fixpoint match_rest (pattern : list cls) : nat :=
  match pattern with
  | A :: rest | Dash :: rest => S (match_rest rest)
  | _ => 0%nat
  end.

Fixpoint match_one_or_more (pattern : list cls) : nat :=
  match pattern with
  | Dash :: rest =>
      match match_one_or_more rest with
      | 0%nat => 0%nat
      | S n => S (S n)
      end
  | A :: rest =>
      S (match_rest rest)
  | _ => 0%nat
  end.

(** [arg_strings.remove('--')], ignoring a missing element *)
Fixpoint remove_dashes (args : list pystr) : list pystr :=
  match args with
  | [] => []
  | s :: rest =>
      if Str.eqb s (lit "--") then rest else s :: remove_dashes rest
  end.

(** [consume_positionals] followed by the collection of the strings it
    leaves, for a run [run] of argument strings that ends at an option
    string or at the end of the command line. *)
Definition consume_positionals (run : list (pystr * cls)) (st : state)
    : state :=
  let n := if positionals st then match_one_or_more (run.*2) else 0%nat in
  match n with
  | 0%nat => add_extras (run.*1) st
  | S _ =>
      {| namespace :=
           set_urls (remove_dashes (take n (run.*1))) (namespace st);
         positionals := false;
         extras := extras st ++ drop n (run.*1) |}
  end.

(** The main loop of [_parse_known_args]; [run] holds the argument
    strings since the last option. *)
Fixpoint consume (pattern run : list (pystr * cls)) (st : state)
    : leave + state :=
  match pattern with
  | [] => inr (consume_positionals run st)
  | (arg, O None _ _) :: rest =>
      consume rest [] (add_extras [arg] (consume_positionals run st))
  | (arg, O (Some a) option_string (Some explicit_arg)) :: rest =>
      match attached a option_string explicit_arg [] with
      | inl e => inl (Error e)
      | inr (tuples, None) =>
          match take_actions tuples (consume_positionals run st) with
          | inl r => inl r
          | inr st' => consume rest [] st'
          end
      | inr (tuples, Some (a', option_string')) =>
          if takes_value a' then
            match rest with
            | (value, A) :: rest' =>
                match take_actions (tuples ++ [(a', Some value)])
                        (consume_positionals run st) with
                | inl r => inl r
                | inr st' => consume rest' [] st'
                end
            | _ => inl (Error (expected_one_argument option_string'))
            end
          else
            match take_actions (tuples ++ [(a', None)])
                    (consume_positionals run st) with
            | inl r => inl r
            | inr st' => consume rest [] st'
            end
      end
  | (arg, O (Some a) option_string None) :: rest =>
      if takes_value a then
        match rest with
        | (value, A) :: rest' =>
            match take_action a (Some value) (consume_positionals run st) with
            | inl r => inl r
            | inr st' => consume rest' [] st'
            end
        | _ => inl (Error (expected_one_argument option_string))
        end
      else
        match take_action a None (consume_positionals run st) with
        | inl r => inl r
        | inr st' => consume rest [] st'
        end
  | (arg, c) :: rest => consume rest (run ++ [(arg, c)]) st
  end.

(** The strings of the command line that are arguments (['A']): the
    candidates for the positional and for the values of options. *)
Definition arguments (argv : list pystr) : list pystr :=
  match classify argv with
  | inl _ => []
  | inr pattern =>
      omap (fun t : pystr * cls => if t.2 is A then Some t.1 else None)
        pattern
  end.

(** [parser.parse_args(argv)]: the namespace, unless the parser
    leaves. *)
Definition parse_args (argv : list pystr) : leave + Namespace stored :=
  match classify argv with
  | inl e => inl (Error e)
  | inr pattern =>
      match consume pattern [] initial with
      | inl r => inl r
      | inr st =>
          if positionals st then inl (Error required_urls)
          else match extras st with
               | [] => inr (namespace st)
               | _ :: _ => inl (Error (unrecognized_arguments (extras st)))
               end
      end
  end.

(** In a pattern made by [classify], an argument in front of the
    separator is not the string [--], and only arguments follow the
    separator. *)
Fixpoint wf (pattern : list (pystr * cls)) : Prop :=
  match pattern with
  | [] => True
  | (s, A) :: rest => Str.eqb s (lit "--") = false /\ wf rest
  | (_, O _ _ _) :: rest => wf rest
  | (_, Dash) :: rest => Forall (fun t => t.2 = A) rest
  end.

(** The positional has been filled only with a non-empty list, and
    only when [Q] holds ([Q]: some string of the command line is an
    argument). *)
Definition filled (Q : Prop) (st : state) : Prop :=
  positionals st = false -> urls (namespace st) <> [] /\ Q.

End ArgParse.

(* ===================================================================== *)
(** ** The environment and the monad of effects *)
(* ===================================================================== *)

(** What the module calls and cannot predict: the file system, through
    [os.path.isfile], and the [yt_dlp.YoutubeDL] object.  Each call sees
    the current state of the outside world and yields the next one, so
    two calls with the same argument may differ.  Every call on the
    library returns or raises: [YoutubeDL] is the construction of the
    object followed by its [__enter__], [YoutubeDL_exit] is its
    [__exit__], which returns [None] and so lets an exception of the
    block pass. *)
Class environment := {
  world : Type;
  os_path_isfile : pystr -> world -> bool * world;
  YoutubeDL : dict -> world -> call unit * world;
  extract_info : pystr -> world -> call pyval * world;
  prepare_filename : pyval -> world -> call pystr * world;
  YoutubeDL_exit : world -> call unit * world
}.

Section Program.
Context {E : environment}.

(** A computation: from a world to the events it produces, the world
    it leaves and its outcome. *)
Definition M (A : Type) : Type := world -> list event * world * outcome A.

Definition ret {A} (a : A) : M A := fun w => ([], w, Returns a).

Definition bind {A B} (m : M A) (k : A -> M B) : M B :=
  fun w =>
    let '(t1, w1, o) := m w in
    match o with
    | Returns a => let '(t2, w2, o2) := k a w1 in (t1 ++ t2, w2, o2)
    | Raises e => (t1, w1, Raises e)
    | Exits s => (t1, w1, Exits s)
    end.

(** [try: body  except Exception as e: handler(e)]: an exception that
    is not an instance of [Exception] passes. *)
Definition try_except {A} (body : M A) (handler : exn -> M A) : M A :=
  fun w =>
    let '(t1, w1, o) := body w in
    match o with
    | Raises e =>
        if is_Exception e
        then let '(t2, w2, o2) := handler e w1 in (t1 ++ t2, w2, o2)
        else (t1, w1, o)
    | _ => (t1, w1, o)
    end.

Definition emit (e : event) : M unit := fun w => ([e], w, Returns tt).

(** [raise e] *)
Definition raise {A} (e : exn) : M A := fun w => ([], w, Raises e).

(** [sys.exit(status)] *)
Definition exit {A} (status : Z) : M A := fun w => ([], w, Exits status).

Definition of_call {A} (r : call A) : outcome A :=
  match r with
  | Return a => Returns a
  | Raise e => Raises e
  end.

Definition isfile (path : pystr) : M bool :=
  fun w => let '(b, w') := os_path_isfile path w in
           ([OS_isfile path b], w', Returns b).

Definition ydl_extract_info (url : pystr) : M pyval :=
  fun w => let '(r, w') := extract_info url w in
           ([Lib_extract_info url r], w', of_call r).

Definition ydl_prepare_filename (info_ : pyval) : M pystr :=
  fun w => let '(r, w') := prepare_filename info_ w in
           ([Lib_prepare_filename info_ r], w', of_call r).

(** [with yt_dlp.YoutubeDL(ydl_opts) as ydl: body].  When the
    construction raises, the body does not run.  Otherwise the object
    is closed however the body ends; an exception raised by the exit
    replaces the outcome of the body. *)
Definition with_YoutubeDL {A} (ydl_opts : dict) (body : M A) : M A :=
  fun w =>
    let '(r, w1) := YoutubeDL ydl_opts w in
    match r with
    | Raise e => ([Lib_YoutubeDL ydl_opts r], w1, Raises e)
    | Return _ =>
        let '(t, w2, o) := body w1 in
        let '(r', w3) := YoutubeDL_exit w2 in
        ([Lib_YoutubeDL ydl_opts r] ++ t ++ [Lib_close r'], w3,
         match r' with
         | Raise e => Raises e
         | Return _ => o
         end)
    end.

End Program.

Notation "x <- m ;; k" := (bind m (fun x => k))
  (at level 100, m at next level, right associativity).
Notation "m ;;; k" := (bind m (fun _ => k))
  (at level 100, right associativity).

(* ===================================================================== *)
(** ** parse_args (lines 248-328) *)
(* ===================================================================== *)

(** Line 319: [[s.strip() for s in args.langs.split(',') if s.strip()]] *)
Definition strip_langs (langs_ : pystr) : list pystr :=
  Str.strip <$> List.filter (fun s => Str.truthy (Str.strip s))
                  (Str.split 44 langs_).

Definition set_langs {L L'} (v : L') (args : Namespace L) : Namespace L' :=
  {| urls := urls args; output_dir := output_dir args;
     cookies := cookies args; langs := v; ffmpeg := ffmpeg args;
     quiet := quiet args; log_level := log_level args;
     auto_sub := auto_sub args; no_playlist := no_playlist args;
     playlist_items := playlist_items args;
     write_infojson := write_infojson args;
     clean_infojson := clean_infojson args |}.

Definition set_cookies {L} (v : option stored) (args : Namespace L)
    : Namespace L :=
  {| urls := urls args; output_dir := output_dir args;
     cookies := v; langs := langs args; ffmpeg := ffmpeg args;
     quiet := quiet args; log_level := log_level args;
     auto_sub := auto_sub args; no_playlist := no_playlist args;
     playlist_items := playlist_items args;
     write_infojson := write_infojson args;
     clean_infojson := clean_infojson args |}.

(** The messages of lines 235 and 237. *)
Definition downloaded_msg : string := "Downloaded: %s".
Definition failed_msg : string := "Download failed: %s | URL: %s".

(** The messages of lines 210 and 242. *)
Definition ydl_opts_msg : string := "ydl_opts: %s".
Definition summary_msg : string :=
  "The following %d URLs failed to download:
%s".

(** The message of lines 322-325. *)
Definition cookies_warning : string :=
  "The specified cookies file does not exist and will be ignored: %s".

Section Functions.
Context {E : environment}.

(** Line 319 calls [args.langs.split]: a list has no such attribute.
    Line 321 calls [os.path.isfile] only on a truthy [args.cookies],
    that is on a non-empty string. *)
Definition parse_args (argv : list pystr) : M (Namespace (list pystr)) :=
  match ArgParse.parse_args argv with
  | inl ArgParse.Help => emit Print_help ;;; exit 0
  | inl (ArgParse.Error e) => emit (Print_error e) ;;; exit 2
  | inr args =>
      match langs args with
      | Empty_list => raise (Exception "AttributeError")
      | Text langs_ =>
          let args := set_langs (strip_langs langs_) args in
          match cookies args with
          | Some (Text c) =>
              if Str.truthy c then
                found <- isfile c ;;
                if negb found then
                  emit (Log warning cookies_warning [VStr c]) ;;;
                  ret (set_cookies None args)
                else ret args
              else ret args
          | Some Empty_list | None => ret args
          end
      end
  end.

(* =================================================================== *)
(** ** download_videos (lines 168-245) *)
(* =================================================================== *)

(** Lines 211-226: the entries of [ydl_opts] under the listed keys. *)
Definition logged_keys : list string :=
  [ "format"; "merge_output_format"; "writesubtitles"; "embedsubtitles";
    "subtitleslangs"; "writethumbnail"; "embedthumbnail"; "retries";
    "continuedl"; "concurrent_fragment_downloads" ].

Definition restrict (keys : list string) (d : dict) : dict :=
  fold_left
    (fun m k => match d !! k with
                | Some v => <[k := v]> m
                | None => m
                end)
    keys ∅.

(** Lines 196-198: [args.cookies if (args.cookies and
    os.path.isfile(args.cookies)) else None] *)
Definition checked_cookies (c : option stored) : M (option pystr) :=
  match c with
  | Some (Text p) =>
      if Str.truthy p then
        found <- isfile p ;;
        ret (if found then Some p else None)
      else ret None
  | Some Empty_list | None => ret None
  end.

(** One iteration of the loop, lines 232-238; yields the list [failed]
    after it. *)
Definition download_one (url : pystr) (failed : list pystr)
    : M (list pystr) :=
  try_except
    (info_ <- ydl_extract_info url ;;
     filepath <- ydl_prepare_filename info_ ;;
     emit (Log info downloaded_msg [VStr filepath]) ;;;
     ret failed)
    (fun e =>
       emit (Log exception failed_msg [VExc e; VStr url]) ;;;
       ret (failed ++ [url])).

(** Lines 231-238: [for url in urls: ...] *)
Fixpoint download_loop (urls_ : list pystr) (failed : list pystr)
    : M (list pystr) :=
  match urls_ with
  | [] => ret failed
  | url :: rest =>
      failed' <- download_one url failed ;;
      download_loop rest failed'
  end.

(** Lines 194-207: the call of [build_ytdl_opts], given the value of
    the conditional expression of lines 196-198. *)
Definition ydl_opts_for (args : Namespace (list pystr))
    (cookies_file : option pystr) : dict :=
  build_ytdl_opts (optional_str (output_dir args)) cookies_file (langs args)
    (optional_str (ffmpeg args)) (quiet args) (auto_sub args)
    (no_playlist args) (optional_str (playlist_items args))
    (write_infojson args) (clean_infojson args).

(** [download_videos]; it yields the list [failed] (the source returns
    [None]) so that statements can speak about it. *)
Definition download_videos (urls_ : list pystr)
    (args : Namespace (list pystr)) : M (list pystr) :=
  cookies_file <- checked_cookies (cookies args) ;;
  let ydl_opts := ydl_opts_for args cookies_file in
  emit (Log debug ydl_opts_msg [VDict (restrict logged_keys ydl_opts)]) ;;;
  failed <- with_YoutubeDL ydl_opts (download_loop urls_ []) ;;
  match failed with
  | [] => ret failed
  | _ :: _ =>
      emit (Log warning summary_msg
              [VInt (Z.of_nat (length failed));
               VStr (Str.join [10%N] failed)]) ;;;
      ret failed
  end.

(* =================================================================== *)
(** ** main (lines 331-356) *)
(* =================================================================== *)

(** Line 349: [argv if argv is not None else sys.argv[1:]] *)
Definition argv_or_sys (sys_argv : list pystr) (argv : option (list pystr))
    : list pystr :=
  match argv with
  | Some a => a
  | None => drop 1 sys_argv
  end.

(** [sys_argv] is [sys.argv].  [getattr(logging, args.log_level)] is
    evaluated before [logging.basicConfig] is called: it raises
    [TypeError] when the name is not a string, and it finds the level
    when the name is one of the choices of [--log-level]. *)
Definition main (sys_argv : list pystr) (argv : option (list pystr))
    : M unit :=
  let argv := argv_or_sys sys_argv argv in
  args <- parse_args argv ;;
  match log_level args with
  | Empty_list => raise (Exception "TypeError")
  | Text level =>
      emit (BasicConfig level) ;;;
      download_videos (urls args) args ;;;
      ret tt
  end.

(** The outcome of [main] after [download_videos] has ended with the
    outcome [o]: line 356 is the last one. *)
Definition after_download {A} (o : outcome A) : outcome unit :=
  match o with
  | Returns _ => Returns tt
  | Raises e => Raises e
  | Exits s => Exits s
  end.



End Functions.

(** The settings that never depend on a flag: the entries of the
    dictionary display of lines 119-145 that later lines do not touch. *)
Definition fixed_settings (langs_ : list pystr) : list (string * pyval) :=
  [ ("format", VStr (lit "bv*+ba/b"));
    ("writesubtitles", VBool true);
    ("embedsubtitles", VBool true);
    ("subtitleslangs", VList (VStr <$> langs_));
    ("writethumbnail", VBool true);
    ("embedthumbnail", VBool true);
    ("postprocessors", postprocessors) ].


(** Keys that only the conditional assignments of lines 147-163 set. *)
Definition conditional_keys : list string :=
  [ "cookiefile"; "ffmpeg_location"; "writeautomaticsub"; "noplaylist";
    "playlist_items"; "writeinfojson"; "clean_infojson" ].


(* ===================================================================== *)
(** ** Reading traces *)
(* ===================================================================== *)

(** A call on the library. *)
Definition is_lib (ev : event) : bool :=
  match ev with
  | Lib_YoutubeDL _ _ | Lib_extract_info _ _ | Lib_prepare_filename _ _
  | Lib_close _ => true
  | _ => false
  end.

(** An event that only [download_videos] produces: a call on the
    library, or the debug log of line 209. *)
Definition of_download (ev : event) : bool :=
  is_lib ev || (if ev is Log debug _ _ then true else false).

(** The URLs passed to [extract_info], in call order. *)
Definition extract_calls (tr : list event) : list pystr :=
  omap (fun ev => if ev is Lib_extract_info url _ then Some url else None) tr.

(** The option maps passed to [yt_dlp.YoutubeDL], in call order. *)
Definition constructions (tr : list event) : list dict :=
  omap (fun ev => if ev is Lib_YoutubeDL ydl_opts _ then Some ydl_opts
                  else None) tr.

(** The URLs whose [extract_info] call raised, in call order. *)
Definition extract_failures (tr : list event) : list pystr :=
  omap (fun ev => if ev is Lib_extract_info url (Raise _) then Some url
                  else None) tr.

(** The URLs for which a library call raised, in call order: the URL of
    every [extract_info] call that raised and, for every
    [prepare_filename] call that raised, the URL of the [extract_info]
    call before it ([current]). *)
Fixpoint failures (current : option pystr) (tr : list event) : list pystr :=
  match tr with
  | [] => []
  | Lib_extract_info url (Raise _) :: rest => url :: failures (Some url) rest
  | Lib_extract_info url (Return _) :: rest => failures (Some url) rest
  | Lib_prepare_filename _ (Raise _) :: rest =>
      match current with
      | Some url => url :: failures current rest
      | None => failures current rest
      end
  | _ :: rest => failures current rest
  end.

(** The [YoutubeDL] object was constructed: no construction raised. *)
Definition constructed (tr : list event) : bool :=
  forallb (fun ev => if ev is Lib_YoutubeDL _ (Raise _) then false else true)
    tr.

(** The [with] block was left without an exception of [__exit__]. *)
Definition closed (tr : list event) : bool :=
  forallb (fun ev => if ev is Lib_close (Raise _) then false else true) tr.

(** The exception that a call of [extract_info] or [prepare_filename]
    raised. *)
Definition item_raised (ev : event) : option exn :=
  match ev with
  | Lib_extract_info _ (Raise e) | Lib_prepare_filename _ (Raise e) => Some e
  | _ => None
  end.

(** Every exception that [extract_info] or [prepare_filename] raised is
    an instance of [Exception]. *)
Definition only_Exceptions (tr : list event) : bool :=
  forallb (fun ev => match item_raised ev with
                     | Some e => is_Exception e
                     | None => true
                     end) tr.

(** The log of the result of one URL: line 235 or line 237. *)
Definition is_result_log (ev : event) : bool :=
  match ev with
  | Log info fmt _ => String.eqb fmt downloaded_msg
  | Log exception fmt _ => String.eqb fmt failed_msg
  | _ => false
  end.

(** [follows_outcome pre ev]: the log [ev] of a result comes right after
    the library calls it reports, which end the trace [pre]: the
    filename that [prepare_filename] returned for the info that
    [extract_info] returned, or the exception that one of them raised,
    with the URL. *)
Inductive follows_outcome : list event -> event -> Prop :=
| follows_downloaded pre url info_ filepath :
    follows_outcome
      (pre ++ [ Lib_extract_info url (Return info_);
                Lib_prepare_filename info_ (Return filepath) ])
      (Log info downloaded_msg [VStr filepath])
| follows_extract_raised pre url e :
    follows_outcome
      (pre ++ [Lib_extract_info url (Raise e)])
      (Log exception failed_msg [VExc e; VStr url])
| follows_prepare_raised pre url info_ e :
    follows_outcome
      (pre ++ [ Lib_extract_info url (Return info_);
                Lib_prepare_filename info_ (Raise e) ])
      (Log exception failed_msg [VExc e; VStr url]).


(** Lines 240-245: the warning that lists the failed URLs, if any. *)
Definition summary (failed : list pystr) : list event :=
  match failed with
  | [] => []
  | _ :: _ =>
      [ Log warning summary_msg
          [VInt (Z.of_nat (length failed)); VStr (Str.join [10%N] failed)] ]
  end.

(** What one iteration of the loop leaves in the trace when it ends
    (lines 232-238): the calls on the library, then the log of the
    result; an exception that is caught is an instance of
    [Exception]. *)
Inductive iteration (url : pystr) : list event -> Prop :=
| iteration_downloaded (info_ : pyval) (filepath : pystr) :
    iteration url
      [ Lib_extract_info url (Return info_);
        Lib_prepare_filename info_ (Return filepath);
        Log info downloaded_msg [VStr filepath] ]
| iteration_extract_raised (e : exn) :
    is_Exception e = true ->
    iteration url
      [ Lib_extract_info url (Raise e);
        Log exception failed_msg [VExc e; VStr url] ]
| iteration_prepare_raised (info_ : pyval) (e : exn) :
    is_Exception e = true ->
    iteration url
      [ Lib_extract_info url (Return info_);
        Lib_prepare_filename info_ (Raise e);
        Log exception failed_msg [VExc e; VStr url] ].

(** What an iteration leaves when an exception that is not an instance
    of [Exception] passes the [except] clause and ends the loop. *)
Inductive interrupted (url : pystr) (e : exn) : list event -> Prop :=
| interrupted_extract :
    is_Exception e = false ->
    interrupted url e [Lib_extract_info url (Raise e)]
| interrupted_prepare (info_ : pyval) :
    is_Exception e = false ->
    interrupted url e
      [ Lib_extract_info url (Return info_);
        Lib_prepare_filename info_ (Raise e) ].

(** The trace of the loop over a list of URLs. *)
Inductive iterations : list pystr -> list event -> Prop :=
| iterations_nil : iterations [] []
| iterations_cons (url : pystr) (rest : list pystr) (t1 t2 : list event) :
    iteration url t1 -> iterations rest t2 ->
    iterations (url :: rest) (t1 ++ t2).

(** The trace of a loop that an exception ends: the iterations for the
    URLs in front, then the iteration that the exception leaves. *)
Inductive interrupted_loop (e : exn) : list pystr -> list event -> Prop :=
| interrupted_loop_at (done : list pystr) (url : pystr) (rest : list pystr)
    (t1 t2 : list event) :
    iterations done t1 -> interrupted url e t2 ->
    interrupted_loop e (done ++ url :: rest) (t1 ++ t2).

(** The trace of the loop: one iteration per URL, or the iterations up
    to the one that an exception ends. *)
Definition loop_trace (urls_ : list pystr) (t : list event) : Prop :=
  iterations urls_ t \/ exists e, interrupted_loop e urls_ t.

(** The world after the iteration for one URL, and after the loop over
    a list of URLs, when every iteration ends: each call is made in the
    world that the call before it left. *)
Definition after_url {E : environment} (url : pystr) (w : world) : world :=
  match extract_info url w with
  | (Return info_, w1) => (prepare_filename info_ w1).2
  | (Raise _, w1) => w1
  end.

Definition after_urls {E : environment} (urls_ : list pystr) (w : world)
    : world :=
  fold_left (fun w url => after_url url w) urls_ w.

(** The calls on the library in a trace. *)
Definition lib_calls (tr : list event) : list event := List.filter is_lib tr.

(** The calls of the iteration for one URL that starts in the world
    [w], and of the loop over a list of URLs, when every iteration
    ends. *)
Definition calls_for_url {E : environment} (url : pystr) (w : world)
    : list event :=
  match extract_info url w with
  | (Return info_, w1) =>
      [ Lib_extract_info url (Return info_);
        Lib_prepare_filename info_ (prepare_filename info_ w1).1 ]
  | (Raise e, _) => [Lib_extract_info url (Raise e)]
  end.

Fixpoint calls_for_urls {E : environment} (urls_ : list pystr) (w : world)
    : list event :=
  match urls_ with
  | [] => []
  | url :: rest => calls_for_url url w ++ calls_for_urls rest (after_url url w)
  end.

(* ===================================================================== *)
(** ** A concrete environment, for examples *)
(* ===================================================================== *)

(** The only file is [cookies.txt].  [extract_info] raises
    [DownloadError] for the URL [bad] and [KeyboardInterrupt] for the
    URL [stop], returns [None] for the URL [none] and an info
    dictionary otherwise; [prepare_filename] raises [TypeError] when
    given [None].  The construction raises [DownloadError] when the
    options name a cookies file (the file does not hold cookies). *)
Definition demo : environment := {|
  world := unit;
  os_path_isfile path w := (Str.eqb path (lit "cookies.txt"), w);
  YoutubeDL ydl_opts w :=
    (match ydl_opts !! "cookiefile" with
     | Some _ => Raise (Exception "DownloadError")
     | None => Return tt
     end, w);
  extract_info url w :=
    (if Str.eqb url (lit "bad") then Raise (Exception "DownloadError")
     else if Str.eqb url (lit "stop") then Raise KeyboardInterrupt
     else if Str.eqb url (lit "none") then Return VNone
     else Return (VDict (dict_of [("webpage_url", VStr url)])), w);
  prepare_filename info_ w :=
    (match info_ with
     | VNone => Raise (Exception "TypeError")
     | _ => Return (lit "video.mp4")
     end, w);
  YoutubeDL_exit w := (Return tt, w)
|}.

(** The namespace of a command line without options. *)
Definition demo_args : Namespace (list pystr) :=
  set_langs (strip_langs (lit "zh-Hans,zh,zh-CN,en")) ArgParse.defaults.

(** Events as the library passes them to the hook. *)
Definition event_finished : dict :=
  dict_of [ ("status", VStr (lit "finished"));
            ("filename", VStr (lit "a.mp4")) ].

Definition event_downloading : dict :=
  dict_of [ ("status", VStr (lit "downloading"));
            ("total_bytes", VInt 1000);
            ("downloaded_bytes", VInt 500);
            ("speed", VFloat 2048);
            ("eta", VInt 3) ].

(** The speed is not known yet: the key is present, the value is
    [None]. *)
Definition event_speed_unknown : dict :=
  dict_of [ ("status", VStr (lit "downloading"));
            ("total_bytes", VInt 1000);
            ("downloaded_bytes", VInt 500);
            ("speed", VNone);
            ("eta", VNone) ].

(** A string that does not start with [-]. *)
Definition is_plain (s : pystr) : bool := negb (Str.startswith s (lit "-")).

(** The namespace of a command line that gives URLs and no option: the
    defaults of the [add_argument] calls, with the default of [--langs]
    split on line 319. *)
Definition default_namespace (urls_ : list pystr) : Namespace (list pystr) :=
  {| urls := urls_; output_dir := None; cookies := None;
     langs := [lit "zh-Hans"; lit "zh"; lit "zh-CN"; lit "en"];
     ffmpeg := None; quiet := false; log_level := Text (lit "INFO");
     auto_sub := false; no_playlist := false; playlist_items := None;
     write_infojson := false; clean_infojson := false |}.

(** The file names reported by the [Downloaded] logs, in order. *)
Definition downloads (tr : list event) : list pystr :=
  omap (fun ev =>
          match ev with
          | Log info fmt [VStr filepath] =>
              if String.eqb fmt downloaded_msg then Some filepath else None
          | _ => None
          end) tr.
(* ===================================================================== *)
(** * Properties *)
(* ===================================================================== *)

(** ** Strings *)

Lemma lstrip_suffix (s : pystr) :
  exists sp, s = sp ++ Str.lstrip s /\ forallb Str.isspace sp = true.
Proof.
  induction s as [|c s [sp [Hs Hsp]]]; simpl.
  - exists []. split; reflexivity.
  - destruct (Str.isspace c) eqn:Hc.
    + exists (c :: sp). simpl. rewrite Hc, Hsp. split; [f_equal; exact Hs | reflexivity].
    + exists []. split; reflexivity.
Qed.

Lemma lstrip_head (s : pystr) (c : N) :
  head (Str.lstrip s) = Some c -> Str.isspace c = false.
Proof.
  induction s as [|d s IH]; simpl; [discriminate|].
  destruct (Str.isspace d) eqn:Hd; [exact IH|].
  simpl. intros [= <-]. exact Hd.
Qed.

Lemma last_rev {A} (l : list A) : last (rev l) = head l.
Proof.
  destruct l as [|a l]; [reflexivity|].
  simpl. apply last_snoc.
Qed.

Lemma rstrip_prefix (s : pystr) :
  exists sp, s = Str.rstrip s ++ sp.
Proof.
  unfold Str.rstrip.
  destruct (lstrip_suffix (rev s)) as [sp [Hs _]].
  exists (rev sp).
  rewrite <- rev_app_distr, <- Hs, rev_involutive. reflexivity.
Qed.

Lemma rstrip_last (s : pystr) (c : N) :
  last (Str.rstrip s) = Some c -> Str.isspace c = false.
Proof.
  unfold Str.rstrip. rewrite last_rev. apply lstrip_head.
Qed.

Lemma strip_trimmed (s : pystr) : Str.trimmed (Str.strip s).
Proof.
  unfold Str.strip. split; intros c Hc.
  - destruct (rstrip_prefix (Str.lstrip s)) as [sp Hsp].
    apply (lstrip_head s). rewrite Hsp.
    destruct (Str.rstrip (Str.lstrip s)); [discriminate | exact Hc].
  - exact (rstrip_last _ _ Hc).
Qed.

Lemma truthy_nonempty (s : pystr) : Str.truthy s = true <-> s <> [].
Proof. destruct s; simpl; split; congruence. Qed.

(** Every entry of the list built on line 319 is a stripped, non-empty
    piece of the input. *)
Lemma strip_langs_spec (raw s : pystr) :
  In s (strip_langs raw) <->
  exists piece, In piece (Str.split 44 raw) /\ s = Str.strip piece /\ s <> [].
Proof.
  unfold strip_langs. rewrite <- list_elem_of_In, list_elem_of_fmap. split.
  - intros [piece [-> Hin]]. apply list_elem_of_In, filter_In in Hin.
    destruct Hin as [Hin Ht]. exists piece. split; [exact Hin|].
    split; [reflexivity | apply truthy_nonempty; exact Ht].
  - intros [piece [Hin [-> Hne]]]. exists piece. split; [reflexivity|].
    apply list_elem_of_In, filter_In. split; [exact Hin|].
    apply truthy_nonempty; exact Hne.
Qed.

Lemma strip_langs_trimmed (raw : pystr) :
  Forall (fun s => s <> [] /\ Str.trimmed s) (strip_langs raw).
Proof.
  apply List.Forall_forall. intros s Hs.
  apply strip_langs_spec in Hs. destruct Hs as [piece [_ [-> Hne]]].
  split; [exact Hne | apply strip_trimmed].
Qed.

(** ** The option map *)

Lemma lookup_set_if_str_ne (k k' : string) (o : option pystr) (d : dict) :
  k <> k' -> set_if_str k o d !! k' = d !! k'.
Proof.
  intros Hne. unfold set_if_str.
  destruct o as [s|]; [|reflexivity].
  destruct (Str.truthy s); [apply lookup_insert_ne; exact Hne | reflexivity].
Qed.

Lemma lookup_set_if_str_eq (k : string) (o : option pystr) (d : dict) :
  set_if_str k o d !! k =
  if opt_truthy o then VStr <$> o else d !! k.
Proof.
  unfold set_if_str, opt_truthy.
  destruct o as [s|]; [|reflexivity].
  destruct (Str.truthy s); [apply lookup_insert_eq | reflexivity].
Qed.

Lemma lookup_set_if_ne (k k' : string) (b : bool) (d : dict) :
  k <> k' -> set_if k b d !! k' = d !! k'.
Proof.
  intros Hne. unfold set_if.
  destruct b; [apply lookup_insert_ne; exact Hne | reflexivity].
Qed.

Ltac skip_updates :=
  repeat first
    [ rewrite lookup_set_if_str_ne by discriminate
    | rewrite lookup_set_if_ne by discriminate
    | rewrite lookup_insert_ne by discriminate ].

Lemma display_fixed (output_dir_ : option pystr) (langs_ : list pystr)
    (quiet_ : bool) (k : string) (v : pyval) :
  In (k, v) (fixed_settings langs_) ->
  ydl_opts_display output_dir_ langs_ quiet_ !! k = Some v.
Proof.
  intros Hin. unfold ydl_opts_display.
  destruct output_dir_ as [[|c o]|]; simpl in Hin;
    repeat (destruct Hin as [[= <- <-]|Hin]; [vm_compute; reflexivity|]);
    destruct Hin.
Qed.

Lemma display_absent (output_dir_ : option pystr) (langs_ : list pystr)
    (quiet_ : bool) (k : string) :
  In k conditional_keys ->
  ydl_opts_display output_dir_ langs_ quiet_ !! k = None.
Proof.
  intros Hin. unfold ydl_opts_display.
  destruct output_dir_ as [[|c o]|]; simpl in Hin;
    repeat (destruct Hin as [<-|Hin]; [vm_compute; reflexivity|]);
    destruct Hin.
Qed.

Lemma build_ytdl_opts_fixed
    (output_dir_ cookies_file : option pystr) (langs_ : list pystr)
    (ffmpeg_location : option pystr) (quiet_ auto_sub_ no_playlist_ : bool)
    (playlist_items_ : option pystr) (write_infojson_ clean_infojson_ : bool)
    (k : string) (v : pyval) :
  In (k, v) (fixed_settings langs_) ->
  build_ytdl_opts output_dir_ cookies_file langs_ ffmpeg_location quiet_
    auto_sub_ no_playlist_ playlist_items_ write_infojson_ clean_infojson_
    !! k = Some v.
Proof.
  intros Hin. unfold build_ytdl_opts.
  pose proof (display_fixed output_dir_ langs_ quiet_ k v Hin) as Hbase.
  simpl in Hin.
  repeat (destruct Hin as [[= <- <-]|Hin];
          [destruct write_infojson_; skip_updates; exact Hbase|]).
  destruct Hin.
Qed.

Lemma build_ytdl_opts_cookiefile
    (output_dir_ cookies_file : option pystr) (langs_ : list pystr)
    (ffmpeg_location : option pystr) (quiet_ auto_sub_ no_playlist_ : bool)
    (playlist_items_ : option pystr) (write_infojson_ clean_infojson_ : bool) :
  build_ytdl_opts output_dir_ cookies_file langs_ ffmpeg_location quiet_
    auto_sub_ no_playlist_ playlist_items_ write_infojson_ clean_infojson_
    !! "cookiefile"
  = if opt_truthy cookies_file then VStr <$> cookies_file else None.
Proof.
  unfold build_ytdl_opts.
  destruct write_infojson_; skip_updates;
    rewrite lookup_set_if_str_eq, display_absent by (simpl; tauto);
    reflexivity.
Qed.

(** C7: whatever the inputs, the map returned by [build_ytdl_opts] has the
    keys [format], [writesubtitles], [embedsubtitles], [subtitleslangs],
    [writethumbnail], [embedthumbnail] and [postprocessors];
    [subtitleslangs] is the [langs] argument and [postprocessors] is the
    fixed list of four post-processors. *)
Theorem build_ytdl_opts_settings
    (output_dir_ cookies_file : option pystr) (langs_ : list pystr)
    (ffmpeg_location : option pystr) (quiet_ auto_sub_ no_playlist_ : bool)
    (playlist_items_ : option pystr) (write_infojson_ clean_infojson_ : bool) :
  let ydl_opts :=
    build_ytdl_opts output_dir_ cookies_file langs_ ffmpeg_location quiet_
      auto_sub_ no_playlist_ playlist_items_ write_infojson_ clean_infojson_ in
  ydl_opts !! "format" = Some (VStr (lit "bv*+ba/b")) /\
  ydl_opts !! "writesubtitles" = Some (VBool true) /\
  ydl_opts !! "embedsubtitles" = Some (VBool true) /\
  ydl_opts !! "subtitleslangs" = Some (VList (VStr <$> langs_)) /\
  ydl_opts !! "writethumbnail" = Some (VBool true) /\
  ydl_opts !! "embedthumbnail" = Some (VBool true) /\
  ydl_opts !! "postprocessors" = Some postprocessors /\
  exists remux convert embed metadata,
    postprocessors = VList [VDict remux; VDict convert; VDict embed; VDict metadata]
    /\ remux !! "key" = Some (VStr (lit "FFmpegVideoRemuxer"))
    /\ convert !! "key" = Some (VStr (lit "FFmpegThumbnailsConvertor"))
    /\ embed !! "key" = Some (VStr (lit "EmbedThumbnail"))
    /\ metadata !! "key" = Some (VStr (lit "FFmpegMetadata")).
Proof.
  cbv zeta.
  repeat (split; [apply build_ytdl_opts_fixed; simpl; tauto|]).
  unfold postprocessors. do 4 eexists.
  split; [reflexivity|].
  repeat split; vm_compute; reflexivity.
Qed.

(** C9: with [write_infojson] false the map has neither [writeinfojson]
    nor [clean_infojson], whatever [clean_infojson] is; the key
    [clean_infojson] is present exactly when both flags are true. *)
Theorem clean_infojson_needs_write_infojson
    (output_dir_ cookies_file : option pystr) (langs_ : list pystr)
    (ffmpeg_location : option pystr) (quiet_ auto_sub_ no_playlist_ : bool)
    (playlist_items_ : option pystr) :
  let ydl_opts w c :=
    build_ytdl_opts output_dir_ cookies_file langs_ ffmpeg_location quiet_
      auto_sub_ no_playlist_ playlist_items_ w c in
  (forall c, ydl_opts false c !! "writeinfojson" = None /\
             ydl_opts false c !! "clean_infojson" = None) /\
  (forall w c, ydl_opts w c !! "clean_infojson"
               = if w && c then Some (VBool true) else None) /\
  (forall w c, ydl_opts w c !! "writeinfojson"
               = if w then Some (VBool true) else None).
Proof.
  cbv zeta. unfold build_ytdl_opts.
  assert (Hclean : forall d : dict,
            d = set_if_str "playlist_items" playlist_items_
                  (set_if "noplaylist" no_playlist_
                     (set_if "writeautomaticsub" auto_sub_
                        (set_if_str "ffmpeg_location" ffmpeg_location
                           (set_if_str "cookiefile" cookies_file
                              (ydl_opts_display output_dir_ langs_ quiet_))))) ->
            d !! "clean_infojson" = None /\ d !! "writeinfojson" = None).
  { intros d ->. split; skip_updates; apply display_absent; simpl; tauto. }
  split; [|split].
  - intros c. destruct (Hclean _ eq_refl) as [H1 H2]. split; assumption.
  - intros w c. destruct (Hclean _ eq_refl) as [H1 H2].
    destruct w, c; simpl; unfold set_if.
    + apply lookup_insert_eq.
    + rewrite lookup_insert_ne by discriminate. exact H1.
    + exact H1.
    + exact H1.
  - intros w c. destruct (Hclean _ eq_refl) as [H1 H2].
    destruct w; simpl; [|exact H2].
    rewrite lookup_set_if_ne by discriminate. apply lookup_insert_eq.
Qed.

(** ** argparse: the positional is never empty *)

Module ArgParseFacts.
Import ArgParse.

Lemma wf_all_A (l : list pystr) :
  Forall (fun t : pystr * cls => t.2 = A) (map (fun s => (s, A)) l).
Proof. induction l; simpl; constructor; auto. Qed.

Lemma classify_wf (argv : list pystr) (pattern : list (pystr * cls)) :
  classify argv = inr pattern -> wf pattern.
Proof.
  revert pattern. induction argv as [|arg rest IH]; simpl; intros pattern H.
  - injection H as <-. exact I.
  - destruct (Str.eqb arg (lit "--")) eqn:Hd.
    + injection H as <-. simpl. apply wf_all_A.
    + destruct (parse_optional arg) as [e|c]; [discriminate|].
      destruct (classify rest) as [e|p]; [discriminate|].
      injection H as <-. specialize (IH p eq_refl).
      destruct c as [[[a os] ea]|]; simpl; auto.
Qed.

Lemma wf_app_l (l1 l2 : list (pystr * cls)) : wf (l1 ++ l2) -> wf l1.
Proof.
  induction l1 as [|[s c] l1 IH]; simpl; [auto|].
  destruct c; auto.
  - intros [H1 H2]. auto.
  - intros H. apply Forall_app in H. apply H.
Qed.

Lemma wf_app_O (l1 l2 : list (pystr * cls)) s a os ea :
  wf (l1 ++ (s, O a os ea) :: l2) -> wf l2.
Proof.
  induction l1 as [|[s1 c] l1 IH]; simpl; [auto|].
  destruct c; auto.
  - intros [H1 H2]. auto.
  - intros H. apply Forall_app in H. destruct H as [_ H].
    inversion H as [|x l Hx Hl]. discriminate Hx.
Qed.

Lemma match_one_or_more_A (run : list (pystr * cls)) :
  match_one_or_more run.*2 <> 0%nat -> exists s, In (s, A) run.
Proof.
  induction run as [|[s c] run IH]; simpl; [congruence|].
  destruct c.
  - intros _. exists s. left. reflexivity.
  - congruence.
  - intros H. destruct IH as [s' Hs'].
    + intros H0. apply H. fold (@fmap list _ _ _ snd run). rewrite H0.
      reflexivity.
    + exists s'. right. exact Hs'.
Qed.

Section Filled.
(** [Q]: some string of the command line is an argument. *)
Variable Q : Prop.
Local Abbreviation filled := (filled Q).

Lemma consume_positionals_filled (run : list (pystr * cls)) (st : state) :
  wf run -> (forall s, In (s, A) run -> Q) -> filled st ->
  filled (consume_positionals run st).
Proof.
  intros Hwf HQ Hst. unfold consume_positionals.
  destruct (positionals st) eqn:Hp.
  - destruct (match_one_or_more run.*2) as [|n] eqn:Hm.
    + unfold filled, add_extras. simpl. rewrite Hp. discriminate.
    + unfold filled. simpl. intros _. split.
      2:{ destruct (match_one_or_more_A run) as [s Hs]; [congruence|].
          exact (HQ s Hs). }
      destruct run as [|[s c] run]; simpl in Hm; [discriminate Hm|].
      destruct c; simpl in *.
      * destruct Hwf as [Hs _]. injection Hm as <-. simpl.
        rewrite Hs. discriminate.
      * discriminate Hm.
      * match type of Hm with
        | context [match ?x with 0%nat => _ | S _ => _ end] =>
            destruct x as [|m] eqn:Hm'; [discriminate Hm|]
        end.
        injection Hm as <-.
        destruct run as [|[s' c'] run]; simpl in Hm'; [discriminate Hm'|].
        simpl. destruct (Str.eqb s (lit "--")); discriminate.
  - unfold filled, add_extras. simpl. exact Hst.
Qed.

Lemma add_extras_filled xs st : filled st -> filled (add_extras xs st).
Proof. unfold filled, add_extras. simpl. auto. Qed.

Lemma take_action_filled a v st st' :
  take_action a v st = inr st' -> filled st -> filled st'.
Proof.
  unfold take_action, filled. intros H Hst.
  destruct a as [|d|d].
  - discriminate.
  - destruct (Str.eqb (default [] v) (lit "--"));
      [|destruct (choices d) as [cs|];
        [destruct (Str.mem (default [] v) cs); [|discriminate]|]];
      injection H as <-; simpl; exact Hst.
  - injection H as <-. simpl. exact Hst.
Qed.

Lemma take_actions_filled tuples st st' :
  take_actions tuples st = inr st' -> filled st -> filled st'.
Proof.
  revert st. induction tuples as [|[a v] tuples IH]; simpl; intros st H Hst.
  - injection H as <-. exact Hst.
  - destruct (take_action a v st) as [r|st1] eqn:Ha; [discriminate|].
    eapply IH; [exact H|]. eapply take_action_filled; eauto.
Qed.

Lemma consume_filled (n : nat) :
  forall pattern run st st',
    (length pattern <= n)%nat -> wf (run ++ pattern) ->
    (forall s, In (s, A) (run ++ pattern) -> Q) -> filled st ->
    consume pattern run st = inr st' -> filled st'.
Proof.
  induction n as [|n IH]; intros pattern run st st' Hlen Hwf HQ Hst H.
  - destruct pattern; [|simpl in Hlen; lia].
    simpl in H. injection H as <-. rewrite app_nil_r in Hwf, HQ.
    apply consume_positionals_filled; assumption.
  - destruct pattern as [|[arg c] rest].
    { simpl in H. injection H as <-. rewrite app_nil_r in Hwf, HQ.
      apply consume_positionals_filled; assumption. }
    simpl in Hlen. apply le_S_n in Hlen.
    assert (Hpos : wf run -> filled (consume_positionals run st)).
    { intros. apply consume_positionals_filled; try assumption.
      intros s Hs. apply (HQ s). apply in_or_app. left. exact Hs. }
    destruct c as [|a os ea|].
    + simpl in H. eapply IH; [exact Hlen| | |exact Hst|exact H];
        rewrite <- app_assoc; assumption.
    + apply wf_app_O in Hwf as Hrest. apply wf_app_l in Hwf.
      specialize (Hpos Hwf).
      assert (Hnext : forall (l : list (pystr * cls)) v st1,
                rest = (v, A) :: l \/ rest = l -> filled st1 ->
                consume l [] st1 = inr st' -> filled st').
      { intros l v st1 Hl Hst1 Hc.
        eapply IH; [| | |exact Hst1|exact Hc].
        - destruct Hl as [->| ->]; simpl in *; lia.
        - destruct Hl as [->| ->]; simpl in *; tauto.
        - intros s Hs. apply (HQ s). apply in_or_app. right. right.
          destruct Hl as [->| ->]; simpl in *; tauto. }
      destruct a as [a|]; simpl in H.
      * destruct ea as [ea|].
        -- destruct (attached a os ea []) as [e|[tuples [[a' os']|]]];
             [discriminate| |].
           ++ destruct (takes_value a').
              ** destruct rest as [|[value [| |]] rest']; try discriminate.
                 destruct (take_actions _ _) as [r|st1] eqn:Ht; [discriminate|].
                 eapply (Hnext rest' value st1); [left; reflexivity| |exact H].
                 eapply take_actions_filled; eauto.
              ** destruct (take_actions _ _) as [r|st1] eqn:Ht; [discriminate|].
                 eapply (Hnext rest [] st1); [right; reflexivity| |exact H].
                 eapply take_actions_filled; eauto.
           ++ destruct (take_actions _ _) as [r|st1] eqn:Ht; [discriminate|].
              eapply (Hnext rest [] st1); [right; reflexivity| |exact H].
              eapply take_actions_filled; eauto.
        -- destruct (takes_value a).
           ++ destruct rest as [|[value [| |]] rest']; try discriminate.
              destruct (take_action _ _ _) as [r|st1] eqn:Ht; [discriminate|].
              eapply (Hnext rest' value st1); [left; reflexivity| |exact H].
              eapply take_action_filled; eauto.
           ++ destruct (take_action _ _ _) as [r|st1] eqn:Ht; [discriminate|].
              eapply (Hnext rest [] st1); [right; reflexivity| |exact H].
              eapply take_action_filled; eauto.
      * eapply (Hnext rest [] _); [right; reflexivity| |exact H].
        apply add_extras_filled. exact Hpos.
    + simpl in H. eapply IH; [exact Hlen| | |exact Hst|exact H];
        rewrite <- app_assoc; assumption.
Qed.
End Filled.

(** [argparse] hands over a namespace only with a non-empty [urls],
    and only when some string of the command line is an argument. *)
Lemma parse_args_urls (argv : list pystr) (ns : Namespace stored) :
  parse_args argv = inr ns -> urls ns <> [] /\ arguments argv <> [].
Proof.
  unfold parse_args, arguments. intros H.
  destruct (classify argv) as [e|pattern] eqn:Hc; [discriminate|].
  destruct (consume pattern [] initial) as [r|st] eqn:Hs; [discriminate|].
  destruct (positionals st) eqn:Hp; [discriminate|].
  destruct (extras st); [|discriminate]. injection H as <-.
  eapply (consume_filled _ (length pattern)); eauto.
  - simpl. eapply classify_wf; eauto.
  - simpl. intros s Hs'. clear -Hs'.
    induction pattern as [|[s' c] pattern IH]; [destruct Hs'|].
    destruct Hs' as [[= -> ->]|Hs']; simpl; [discriminate|].
    destruct c; simpl; auto; discriminate.
  - unfold filled, initial. simpl. discriminate.
Qed.
End ArgParseFacts.

(** ** parse_args *)

Section ParseArgs.
Context {E : environment}.

(** The ways [parse_args] ends. *)
Lemma parse_args_run (argv : list pystr) (w : world) :
  parse_args argv w =
  match ArgParse.parse_args argv with
  | inl ArgParse.Help => ([Print_help], w, Exits 0)
  | inl (ArgParse.Error e) => ([Print_error e], w, Exits 2)
  | inr raw =>
      match langs raw with
      | Empty_list => ([], w, Raises (Exception "AttributeError"))
      | Text langs_ =>
          let args := set_langs (strip_langs langs_) raw in
          match cookies raw with
          | Some (Text c) =>
              if Str.truthy c then
                if (os_path_isfile c w).1
                then ([OS_isfile c true], (os_path_isfile c w).2,
                      Returns args)
                else ([OS_isfile c false;
                       Log warning cookies_warning [VStr c]],
                      (os_path_isfile c w).2,
                      Returns (set_cookies None args))
              else ([], w, Returns args)
          | Some Empty_list | None => ([], w, Returns args)
          end
      end
  end.
Proof.
  unfold parse_args.
  destruct (ArgParse.parse_args argv) as [[|e]|raw]; try reflexivity.
  destruct (langs raw) as [langs_|]; [|reflexivity].
  simpl. destruct (cookies raw) as [[c|]|]; [|reflexivity..].
  destruct (Str.truthy c); [|reflexivity].
  unfold bind, isfile. destruct (os_path_isfile c w) as [[|] w1]; reflexivity.
Qed.

(** C3: every element of the list [langs] that [parse_args] returns is
    a non-empty string without white space at either end; the list
    holds the stripped pieces of the comma-separated input, without
    those that are empty once stripped. *)
Theorem parse_args_langs (argv : list pystr) (w w' : world)
    (tr : list event) (ns : Namespace (list pystr)) :
  parse_args argv w = (tr, w', Returns ns) ->
  exists raw langs_,
    ArgParse.parse_args argv = inr raw /\
    langs raw = Text langs_ /\
    langs ns = strip_langs langs_ /\
    Forall (fun s => s <> [] /\ Str.trimmed s) (langs ns) /\
    forall s, In s (langs ns) <->
              exists piece, In piece (Str.split 44 langs_) /\
                            s = Str.strip piece /\ s <> [].
Proof.
  rewrite parse_args_run. intros H.
  destruct (ArgParse.parse_args argv) as [[|e]|raw]; try discriminate.
  destruct (langs raw) as [langs_|] eqn:Hraw; [|discriminate].
  exists raw, langs_. split; [reflexivity|]. split; [exact Hraw|].
  assert (Hl : langs ns = strip_langs langs_).
  { simpl in H. destruct (cookies raw) as [[c|]|];
      [destruct (Str.truthy c); [destruct (os_path_isfile c w).1|]| |];
      injection H as _ _ <-; reflexivity. }
  rewrite Hl. split; [reflexivity|]. split.
  - apply strip_langs_trimmed.
  - intros s. apply strip_langs_spec.
Qed.
End ParseArgs.

Lemma parse_args_langs_witness :
  exists ns,
    parse_args (E := demo) [lit "-l"; lit " en , ,fr"; lit "u"] tt
    = ([], tt, Returns ns) /\
    langs ns = [lit "en"; lit "fr"] /\
    Forall (fun s => s <> [] /\ Str.trimmed s) (langs ns).
Proof.
  eexists. split; [vm_compute; reflexivity|]. split; [vm_compute; reflexivity|].
  destruct (parse_args_langs (E := demo)
              [lit "-l"; lit " en , ,fr"; lit "u"] tt tt [] _ eq_refl)
    as [raw [langs_ [_ [_ [_ [H _]]]]]].
  exact H.
Defined.

(** ** The download loop *)

Lemma iterations_extract_calls (urls_ : list pystr) (t : list event) :
  iterations urls_ t -> extract_calls t = urls_.
Proof.
  induction 1 as [|url rest t1 t2 H1 _ IH]; [reflexivity|].
  unfold extract_calls in *. rewrite omap_app, IH.
  destruct H1; reflexivity.
Qed.

Lemma iterations_constructions (urls_ : list pystr) (t : list event) :
  iterations urls_ t -> constructions t = [].
Proof.
  induction 1 as [|url rest t1 t2 H1 _ IH]; [reflexivity|].
  unfold constructions in *. rewrite omap_app, IH.
  destruct H1; reflexivity.
Qed.

Lemma iterations_failures (urls_ : list pystr) (t : list event) :
  iterations urls_ t -> forall current, failures current t = failures None t.
Proof.
  induction 1 as [|url rest t1 t2 H1 _ IH]; intros current; [reflexivity|].
  destruct H1; simpl; rewrite ?(IH (Some url)); reflexivity.
Qed.

Lemma iteration_failures (url : pystr) (rest : list pystr)
    (t1 t2 : list event) :
  iteration url t1 -> iterations rest t2 ->
  failures None (t1 ++ t2) = failures None t1 ++ failures None t2.
Proof.
  intros H1 H2.
  destruct H1; simpl; rewrite ?(iterations_failures _ _ H2 (Some url));
    reflexivity.
Qed.

Lemma interrupted_not_only_Exceptions (url : pystr) (e : exn)
    (t : list event) :
  interrupted url e t -> only_Exceptions t = false.
Proof. intros [H|info_ H]; simpl; rewrite H; reflexivity. Qed.

Lemma interrupted_loop_not_only_Exceptions (urls_ : list pystr) (e : exn)
    (t : list event) :
  interrupted_loop e urls_ t -> only_Exceptions t = false.
Proof.
  intros [done url rest t1 t2 _ H]. unfold only_Exceptions.
  rewrite forallb_app.
  change (forallb _ t2) with (only_Exceptions t2).
  rewrite (interrupted_not_only_Exceptions _ _ _ H).
  apply andb_false_r.
Qed.

Lemma failures_skip (t : list event) :
  Forall (fun ev => is_lib ev = false) t ->
  forall current rest, failures current (t ++ rest) = failures current rest.
Proof.
  induction 1 as [|ev t Hev _ IH]; intros current rest; [reflexivity|].
  destruct ev; try discriminate Hev; simpl; apply IH.
Qed.

Lemma extract_calls_skip (t : list event) :
  Forall (fun ev => is_lib ev = false) t -> extract_calls t = [].
Proof.
  induction 1 as [|ev t Hev _ IH]; [reflexivity|].
  destruct ev; try discriminate Hev; exact IH.
Qed.

Lemma extract_calls_app (t1 t2 : list event) :
  extract_calls (t1 ++ t2) = extract_calls t1 ++ extract_calls t2.
Proof. apply omap_app. Qed.

Lemma constructions_app (t1 t2 : list event) :
  constructions (t1 ++ t2) = constructions t1 ++ constructions t2.
Proof. apply omap_app. Qed.

Lemma constructions_skip (t : list event) :
  Forall (fun ev => is_lib ev = false) t -> constructions t = [].
Proof.
  induction 1 as [|ev t Hev _ IH]; [reflexivity|].
  destruct ev; try discriminate Hev; exact IH.
Qed.

Lemma summary_not_lib (failed : list pystr) :
  Forall (fun ev => is_lib ev = false) (summary failed).
Proof. destruct failed; repeat constructor. Qed.

Lemma failures_after_loop (urls_ : list pystr) (t tail : list event)
    (r : call unit) :
  iterations urls_ t -> Forall (fun ev => is_lib ev = false) tail ->
  forall current,
    failures current (t ++ Lib_close r :: tail) = failures None t.
Proof.
  intros Hi Htail. induction Hi as [|url rest t1 t2 H1 H2 IH]; intros current.
  - simpl. rewrite <- (app_nil_r tail). apply (failures_skip _ Htail).
  - rewrite (iteration_failures url rest t1 t2 H1 H2), <- app_assoc.
    destruct H1; simpl; rewrite (IH (Some url)); reflexivity.
Qed.

Section Download.
Context {E : environment}.

(** One iteration ends, with the list [failed] extended by the URL if a
    call raised, or an exception that is not an instance of [Exception]
    passes. *)
Lemma download_one_run (url : pystr) (failed : list pystr) (w : world) :
  (exists t,
      iteration url t /\ lib_calls t = calls_for_url url w /\
      download_one url failed w
      = (t, after_url url w, Returns (failed ++ failures None t))) \/
  (exists t e w',
      interrupted url e t /\
      download_one url failed w = (t, w', Raises e)).
Proof.
  unfold download_one, try_except, bind, ydl_extract_info,
    ydl_prepare_filename, emit, ret, after_url, calls_for_url.
  destruct (extract_info url w) as [[info_|e] w1]; simpl.
  - destruct (prepare_filename info_ w1) as [[filepath|e] w2]; simpl.
    + left. eexists. split; [constructor|]. split; [reflexivity|].
      simpl. rewrite app_nil_r. reflexivity.
    + destruct (is_Exception e) eqn:He.
      * left. eexists. split; [apply iteration_prepare_raised; exact He|].
        split; reflexivity.
      * right. do 3 eexists.
        split; [apply interrupted_prepare; exact He|]. reflexivity.
  - destruct (is_Exception e) eqn:He.
    + left. eexists. split; [apply iteration_extract_raised; exact He|].
      split; reflexivity.
    + right. do 3 eexists.
      split; [apply interrupted_extract; exact He|]. reflexivity.
Qed.

(** The loop ends after one iteration per URL, or an exception ends
    it. *)
Lemma download_loop_run (urls_ : list pystr) :
  forall (failed : list pystr) (w : world),
  (exists t,
      iterations urls_ t /\ lib_calls t = calls_for_urls urls_ w /\
      download_loop urls_ failed w
      = (t, after_urls urls_ w, Returns (failed ++ failures None t))) \/
  (exists t e w',
      interrupted_loop e urls_ t /\
      download_loop urls_ failed w = (t, w', Raises e)).
Proof.
  induction urls_ as [|url rest IH]; intros failed w; simpl.
  - left. exists []. split; [constructor|]. split; [reflexivity|].
    rewrite app_nil_r. reflexivity.
  - unfold bind.
    destruct (download_one_run url failed w)
      as [[t1 [Hi1 [Hc1 H1]]]|[t1 [e [w1 [Hi1 H1]]]]]; rewrite H1.
    + destruct (IH (failed ++ failures None t1) (after_url url w))
        as [[t2 [Hi2 [Hc2 H2]]]|[t2 [e [w2 [Hi2 H2]]]]]; rewrite H2.
      * left. exists (t1 ++ t2). split; [constructor; assumption|].
        split; [unfold lib_calls in *;
                rewrite List.filter_app, Hc1, Hc2; reflexivity|].
        rewrite (iteration_failures url rest); [|assumption..].
        rewrite app_assoc. reflexivity.
      * right. exists (t1 ++ t2), e, w2. split; [|reflexivity].
        destruct Hi2 as [done url' rest' t3 t4 Hd Hx].
        rewrite app_assoc.
        apply (interrupted_loop_at e (url :: done) url' rest' (t1 ++ t3) t4);
          [constructor; assumption | exact Hx].
    + right. exists t1, e, w1. split; [|reflexivity].
      apply (interrupted_loop_at e [] url rest [] t1);
        [constructor | exact Hi1].
Qed.

(** The check of lines 196-198: no call when [args.cookies] is falsy,
    one call of [os.path.isfile] otherwise. *)
Lemma checked_cookies_run (c : option stored) (w : world) :
  (attr_truthy c = false /\ checked_cookies c w = ([], w, Returns None)) \/
  (exists p, c = Some (Text p) /\ p <> [] /\
     checked_cookies c w =
     ([OS_isfile p (os_path_isfile p w).1], (os_path_isfile p w).2,
      Returns (if (os_path_isfile p w).1 then Some p else None))).
Proof.
  destruct c as [[[|ch p]|]|]; [left; split; reflexivity|
                                |left; split; reflexivity..].
  right. exists (ch :: p). split; [reflexivity|]. split; [discriminate|].
  unfold checked_cookies, bind, isfile, ret. simpl.
  destruct (os_path_isfile (ch :: p) w) as [b w1]. reflexivity.
Qed.

(** The runs of [download_videos]: the check of the cookies file and
    the debug log of the options, then the construction of the
    [YoutubeDL] object.  If it raises, that is the end.  Otherwise the
    loop runs, the [with] block is left, and the summary follows when
    the loop has ended and the exit has not raised. *)
Lemma download_videos_run (urls_ : list pystr)
    (args : Namespace (list pystr)) (w : world) :
  exists t_check w1 cookies_file,
    checked_cookies (cookies args) w = (t_check, w1, Returns cookies_file) /\
    ((t_check = [] /\ cookies_file = None) \/
     (exists p b, p <> [] /\ cookies args = Some (Text p) /\
                  t_check = [OS_isfile p b] /\
                  cookies_file = if b then Some p else None)) /\
    let ydl_opts := ydl_opts_for args cookies_file in
    let head :=
      t_check
      ++ [Log debug ydl_opts_msg [VDict (restrict logged_keys ydl_opts)]] in
    (exists e w2,
        YoutubeDL ydl_opts w1 = (Raise e, w2) /\
        download_videos urls_ args w
        = (head ++ [Lib_YoutubeDL ydl_opts (Raise e)], w2, Raises e)) \/
    (exists w2 t_loop w3 o r w4,
        YoutubeDL ydl_opts w1 = (Return tt, w2) /\
        download_loop urls_ [] w2 = (t_loop, w3, o) /\
        ((iterations urls_ t_loop /\
          lib_calls t_loop = calls_for_urls urls_ w2 /\
          w3 = after_urls urls_ w2 /\
          o = Returns (failures None t_loop)) \/
         (exists e, interrupted_loop e urls_ t_loop /\ o = Raises e)) /\
        YoutubeDL_exit w3 = (r, w4) /\
        download_videos urls_ args w
        = (head ++ Lib_YoutubeDL ydl_opts (Return tt)
                :: t_loop
                ++ Lib_close r
                :: match r, o with
                   | Return _, Returns failed => summary failed
                   | _, _ => []
                   end,
           w4,
           match r with
           | Raise e => Raises e
           | Return _ => o
           end)).
Proof.
  assert (Hc : exists t_check w1 cookies_file,
             checked_cookies (cookies args) w
             = (t_check, w1, Returns cookies_file) /\
             ((t_check = [] /\ cookies_file = None) \/
              (exists p b, p <> [] /\ cookies args = Some (Text p) /\
                           t_check = [OS_isfile p b] /\
                           cookies_file = if b then Some p else None))).
  { destruct (checked_cookies_run (cookies args) w)
      as [[_ H]|[p [Hp [Hne H]]]]; rewrite H.
    - do 3 eexists. split; [reflexivity|]. left. split; reflexivity.
    - do 3 eexists. split; [reflexivity|]. right.
      exists p, (os_path_isfile p w).1. repeat split; assumption. }
  destruct Hc as [t_check [w1 [cookies_file [Hc Hshape]]]].
  exists t_check, w1, cookies_file.
  split; [exact Hc|]. split; [exact Hshape|]. cbv zeta.
  unfold download_videos, bind, with_YoutubeDL, emit. rewrite Hc.
  destruct (YoutubeDL (ydl_opts_for args cookies_file) w1)
    as [[[]|e] w2] eqn:Hy.
  - right.
    destruct (download_loop_run urls_ [] w2)
      as [[t_loop [Hi [Hcalls Hl]]]|[t_loop [e [w3 [Hi Hl]]]]].
    + destruct (YoutubeDL_exit (after_urls urls_ w2)) as [r w4] eqn:Hx.
      exists w2, t_loop, (after_urls urls_ w2),
        (Returns (failures None t_loop)), r, w4.
      split; [reflexivity|]. split; [exact Hl|].
      split; [left; repeat split; assumption|]. split; [exact Hx|].
      rewrite Hl, Hx. simpl.
      destruct r as [[]|e]; simpl.
      * destruct (failures None t_loop) as [|u failed]; simpl; unfold ret;
          rewrite ?app_nil_r, <- ?app_assoc; simpl; reflexivity.
      * rewrite <- ?app_assoc. reflexivity.
    + destruct (YoutubeDL_exit w3) as [r w4] eqn:Hx.
      exists w2, t_loop, w3, (Raises e), r, w4.
      split; [reflexivity|]. split; [exact Hl|].
      split; [right; exists e; split; [exact Hi|reflexivity]|].
      split; [exact Hx|].
      rewrite Hl, Hx. simpl.
      destruct r as [[]|e']; simpl; rewrite <- ?app_assoc; reflexivity.
  - left. exists e, w2. split; [reflexivity|].
    simpl. rewrite <- ?app_assoc. reflexivity.
Qed.

(** The run of [download_videos] when the object is constructed and the
    two calls of the loop raise instances of [Exception] only: the loop
    ends. *)
Lemma download_videos_ended (urls_ : list pystr)
    (args : Namespace (list pystr)) (w w' : world) (tr : list event)
    (o : outcome (list pystr)) :
  download_videos urls_ args w = (tr, w', o) ->
  constructed tr = true -> only_Exceptions tr = true ->
  exists t_check w1 cookies_file w2 t_loop r,
    checked_cookies (cookies args) w = (t_check, w1, Returns cookies_file) /\
    Forall (fun ev => is_lib ev = false) t_check /\
    YoutubeDL (ydl_opts_for args cookies_file) w1 = (Return tt, w2) /\
    iterations urls_ t_loop /\
    lib_calls t_loop = calls_for_urls urls_ w2 /\
    YoutubeDL_exit (after_urls urls_ w2) = (r, w') /\
    tr = (t_check
          ++ [Log debug ydl_opts_msg
                [VDict (restrict logged_keys
                          (ydl_opts_for args cookies_file))]])
         ++ Lib_YoutubeDL (ydl_opts_for args cookies_file) (Return tt)
         :: t_loop
         ++ Lib_close r
         :: match r with
            | Return _ => summary (failures None t_loop)
            | Raise _ => []
            end /\
    o = match r with
        | Return _ => Returns (failures None t_loop)
        | Raise e => Raises e
        end.
Proof.
  intros Hrun Hcons Hexc.
  destruct (download_videos_run urls_ args w)
    as [t_check [w1 [cookies_file [Hc [Hshape H]]]]].
  cbv zeta in H.
  assert (Hfree : Forall (fun ev => is_lib ev = false) t_check).
  { destruct Hshape as [[-> _]|[p [b [_ [_ [-> _]]]]]]; repeat constructor. }
  destruct H as [[e [w2 [Hy H]]]|[w2 [t_loop [w3 [o' [r [w4 H]]]]]]].
  - rewrite H in Hrun. injection Hrun as <- _ _.
    unfold constructed in Hcons. rewrite !forallb_app in Hcons.
    simpl in Hcons. rewrite !andb_false_r in Hcons. discriminate.
  - destruct H as [Hy [Hl [Hloop [Hx H]]]].
    rewrite H in Hrun. injection Hrun as <- <- <-.
    destruct Hloop as [[Hi [Hcalls [-> ->]]]|[e [Hi ->]]].
    + exists t_check, w1, cookies_file, w2, t_loop, r.
      repeat (split; [assumption|]). split; [reflexivity|].
      destruct r; reflexivity.
    + apply interrupted_loop_not_only_Exceptions in Hi.
      unfold only_Exceptions in Hexc, Hi.
      rewrite !forallb_app in Hexc. simpl in Hexc.
      rewrite forallb_app, Hi in Hexc. simpl in Hexc.
      rewrite !andb_false_r in Hexc. discriminate.
Qed.

(** C1, as amended: when the [YoutubeDL] object is constructed and the
    calls of [extract_info] and [prepare_filename] raise instances of
    [Exception] only, [download_videos] attempts every URL, in input
    order.  An exception that one of the two calls raises for a URL is
    caught, the URL is appended to [failed] and the loop goes on: the
    loop leaves one iteration per URL in the trace.  At the end
    [failed] holds exactly the URLs for which one of the two calls
    raised, in input order, and it is what [download_videos] yields:
    no exception of an iteration leaves the function, which raises
    only what the exit of the [with] block raises. *)
Theorem download_videos_failed (urls_ : list pystr)
    (args : Namespace (list pystr)) (w w' : world) (tr : list event)
    (o : outcome (list pystr)) :
  download_videos urls_ args w = (tr, w', o) ->
  constructed tr = true -> only_Exceptions tr = true ->
  extract_calls tr = urls_ /\
  (exists pre t_loop post,
      tr = pre ++ t_loop ++ post /\ iterations urls_ t_loop /\
      failures None t_loop = failures None tr) /\
  (closed tr = true -> o = Returns (failures None tr)) /\
  (closed tr = false ->
   exists e pre, o = Raises e /\ tr = pre ++ [Lib_close (Raise e)]).
Proof.
  intros Hrun Hcons Hexc.
  destruct (download_videos_ended _ _ _ _ _ _ Hrun Hcons Hexc)
    as [t_check [w1 [cookies_file [w2 [t_loop [r H]]]]]].
  destruct H as [Hc [Hfree [Hy [Hi [_ [Hx [-> ->]]]]]]].
  set (ydl_opts := ydl_opts_for args cookies_file) in *.
  set (head := t_check ++ [Log debug ydl_opts_msg
                             [VDict (restrict logged_keys ydl_opts)]]) in *.
  set (tail := match r with
               | Return _ => summary (failures None t_loop)
               | Raise _ => []
               end) in *.
  assert (Hhead : Forall (fun ev => is_lib ev = false) head).
  { apply Forall_app. split; [exact Hfree | repeat constructor]. }
  assert (Htail : Forall (fun ev => is_lib ev = false) tail).
  { unfold tail. destruct r; [apply summary_not_lib | constructor]. }
  assert (Hfail : failures None
                    (head ++ Lib_YoutubeDL ydl_opts (Return tt)
                          :: t_loop ++ Lib_close r :: tail)
                  = failures None t_loop).
  { rewrite (failures_skip _ Hhead). simpl.
    apply (failures_after_loop _ _ _ _ Hi Htail). }
  split; [|split; [|split]].
  - rewrite extract_calls_app.
    change (extract_calls (Lib_YoutubeDL ydl_opts (Return tt)
                             :: t_loop ++ Lib_close r :: tail))
      with (extract_calls (t_loop ++ Lib_close r :: tail)).
    rewrite extract_calls_app.
    change (extract_calls (Lib_close r :: tail)) with (extract_calls tail).
    rewrite (extract_calls_skip _ Hhead), (extract_calls_skip _ Htail),
      (iterations_extract_calls _ _ Hi), app_nil_r. reflexivity.
  - exists (head ++ [Lib_YoutubeDL ydl_opts (Return tt)]), t_loop,
      (Lib_close r :: tail).
    split; [rewrite <- app_assoc; reflexivity|].
    split; [exact Hi | symmetry; exact Hfail].
  - rewrite Hfail. intros Hclosed. destruct r as [[]|e]; [reflexivity|].
    unfold closed in Hclosed. rewrite forallb_app in Hclosed.
    simpl in Hclosed. rewrite forallb_app in Hclosed. simpl in Hclosed.
    rewrite !andb_false_r in Hclosed. discriminate.
  - intros Hclosed. destruct r as [[]|e].
    + exfalso. unfold closed in Hclosed.
      rewrite forallb_app in Hclosed. simpl in Hclosed.
      rewrite forallb_app in Hclosed. simpl in Hclosed.
      assert (Hn : forall t, Forall (fun ev => is_lib ev = false) t ->
                             forallb (fun ev => if ev is Lib_close (Raise _)
                                                then false else true) t
                             = true).
      { clear. induction 1 as [|ev t Hev _ IH]; [reflexivity|].
        destruct ev; try discriminate Hev; exact IH. }
      rewrite (Hn _ Hhead), (Hn _ Htail) in Hclosed.
      assert (Hcl : closed t_loop = true).
      { clear -Hi. induction Hi as [|url rest t1 t2 H1 _ IH]; [reflexivity|].
        unfold closed in *. rewrite forallb_app, IH.
        destruct H1; reflexivity. }
      unfold closed in Hcl. rewrite Hcl in Hclosed. discriminate.
    + exists e, (head ++ Lib_YoutubeDL ydl_opts (Return tt) :: t_loop).
      split; [reflexivity|].
      unfold tail. rewrite <- app_assoc. reflexivity.
Qed.

Ltac not_lib :=
  repeat first [ apply Forall_app; split | apply summary_not_lib
               | constructor | assumption | reflexivity ].

(** C6, as amended: when the [YoutubeDL] object is constructed and the
    calls of [extract_info] and [prepare_filename] raise instances of
    [Exception] only, [download_videos] calls [extract_info] exactly
    once per URL of the input list, in the order of the list.  It
    builds one option map and constructs one [YoutubeDL] object from
    it, before the first call; the loop leaves one iteration per URL
    between that construction and the exit of the [with] block, and
    the calls of the loop are the calls on that one object, each made
    in the world that the call before it left. *)
Theorem download_videos_sequential (urls_ : list pystr)
    (args : Namespace (list pystr)) (w w' : world) (tr : list event)
    (o : outcome (list pystr)) :
  download_videos urls_ args w = (tr, w', o) ->
  constructed tr = true -> only_Exceptions tr = true ->
  exists t_check w1 cookies_file w2 body r post,
    extract_calls tr = urls_ /\
    constructions tr = [ydl_opts_for args cookies_file] /\
    tr = (t_check
          ++ [Log debug ydl_opts_msg
                [VDict (restrict logged_keys
                          (ydl_opts_for args cookies_file))]])
         ++ Lib_YoutubeDL (ydl_opts_for args cookies_file) (Return tt)
         :: body ++ Lib_close r :: post /\
    Forall (fun ev => is_lib ev = false) t_check /\
    Forall (fun ev => is_lib ev = false) post /\
    iterations urls_ body /\
    checked_cookies (cookies args) w = (t_check, w1, Returns cookies_file) /\
    YoutubeDL (ydl_opts_for args cookies_file) w1 = (Return tt, w2) /\
    lib_calls body = calls_for_urls urls_ w2 /\
    YoutubeDL_exit (after_urls urls_ w2) = (r, w').
Proof.
  intros Hrun Hcons Hexc.
  destruct (download_videos_ended _ _ _ _ _ _ Hrun Hcons Hexc)
    as [t_check [w1 [cookies_file [w2 [t_loop [r H]]]]]].
  destruct H as [Hc [Hfree [Hy [Hi [Hcalls [Hx [-> ->]]]]]]].
  set (ydl_opts := ydl_opts_for args cookies_file) in *.
  set (head := t_check ++ [Log debug ydl_opts_msg
                             [VDict (restrict logged_keys ydl_opts)]]) in *.
  set (tail := match r with
               | Return _ => summary (failures None t_loop)
               | Raise _ => []
               end) in *.
  assert (Hhead : Forall (fun ev => is_lib ev = false) head)
    by (unfold head; not_lib).
  assert (Htail : Forall (fun ev => is_lib ev = false) tail)
    by (unfold tail; destruct r; not_lib).
  exists t_check, w1, cookies_file, w2, t_loop, r, tail.
  split; [|split; [|repeat (split; [first [reflexivity|assumption]|]);
                    assumption]].
  - rewrite extract_calls_app.
    change (extract_calls (Lib_YoutubeDL ydl_opts (Return tt)
                             :: t_loop ++ Lib_close r :: tail))
      with (extract_calls (t_loop ++ Lib_close r :: tail)).
    rewrite extract_calls_app.
    change (extract_calls (Lib_close r :: tail)) with (extract_calls tail).
    rewrite (extract_calls_skip _ Hhead), (extract_calls_skip _ Htail),
      (iterations_extract_calls _ _ Hi), app_nil_r. reflexivity.
  - rewrite constructions_app.
    change (constructions (Lib_YoutubeDL ydl_opts (Return tt)
                             :: t_loop ++ Lib_close r :: tail))
      with (ydl_opts :: constructions (t_loop ++ Lib_close r :: tail)).
    rewrite constructions_app.
    change (constructions (Lib_close r :: tail)) with (constructions tail).
    rewrite (constructions_skip _ Hhead), (constructions_skip _ Htail),
      (iterations_constructions _ _ Hi). reflexivity.
Qed.
End Download.

Lemma download_videos_failed_witness :
  let run :=
    download_videos (E := demo) [lit "a"; lit "none"; lit "bad"]
      demo_args tt in
  extract_calls run.1.1 = [lit "a"; lit "none"; lit "bad"] /\
  run.2 = Returns [lit "none"; lit "bad"].
Proof.
  intros run.
  assert (Hrun : run = (run.1.1, run.1.2, run.2))
    by (destruct run as [[tr w'] o]; reflexivity).
  assert (Hcons : constructed run.1.1 = true) by (vm_compute; reflexivity).
  assert (Hexc : only_Exceptions run.1.1 = true) by (vm_compute; reflexivity).
  assert (Hclosed : closed run.1.1 = true) by (vm_compute; reflexivity).
  destruct (download_videos_failed (E := demo) _ _ _ _ _ _ Hrun Hcons Hexc)
    as [H1 [_ [H2 _]]].
  split; [exact H1|]. rewrite (H2 Hclosed). vm_compute. reflexivity.
Defined.

(** C1, as stated, fails.  For the URL [none] the call of
    [extract_info] returns and the call of [prepare_filename] raises:
    the URL is in [failed] although its [extract_info] call did not
    raise.  For the URL [stop] the call raises [KeyboardInterrupt],
    which [except Exception] does not catch: the exception leaves
    [download_videos] and the next URL is not attempted.  When the
    construction of the [YoutubeDL] object raises, no URL is
    attempted. *)
Lemma download_videos_failed_not_extract_only :
  let run1 := download_videos (E := demo) [lit "none"] demo_args tt in
  let run2 :=
    download_videos (E := demo) [lit "stop"; lit "a"] demo_args tt in
  let run3 :=
    download_videos (E := demo) [lit "a"]
      (set_cookies (Some (Text (lit "cookies.txt"))) demo_args) tt in
  (lib_calls run1.1.1
   = [ Lib_YoutubeDL (ydl_opts_for demo_args None) (Return tt);
       Lib_extract_info (lit "none") (Return VNone);
       Lib_prepare_filename VNone (Raise (Exception "TypeError"));
       Lib_close (Return tt) ] /\
   run1.2 = Returns [lit "none"] /\
   extract_failures run1.1.1 = []) /\
  (run2.2 = Raises KeyboardInterrupt /\
   extract_calls run2.1.1 = [lit "stop"]) /\
  (run3.2 = Raises (Exception "DownloadError") /\
   extract_calls run3.1.1 = []).
Proof. cbv zeta. repeat split; vm_compute; reflexivity. Qed.

Lemma download_videos_sequential_witness :
  let run :=
    download_videos (E := demo) [lit "a"; lit "bad"; lit "b"] demo_args tt in
  extract_calls run.1.1 = [lit "a"; lit "bad"; lit "b"] /\
  constructions run.1.1 = [ydl_opts_for demo_args None].
Proof.
  intros run.
  assert (Hrun : run = (run.1.1, run.1.2, run.2))
    by (destruct run as [[tr w'] o]; reflexivity).
  assert (Hcons : constructed run.1.1 = true) by (vm_compute; reflexivity).
  assert (Hexc : only_Exceptions run.1.1 = true) by (vm_compute; reflexivity).
  destruct (download_videos_sequential (E := demo) _ _ _ _ _ _
              Hrun Hcons Hexc)
    as [t_check [w1 [cookies_file [w2 [body [r [post H]]]]]]].
  destruct H as [H1 [H2 [_ [_ [_ [_ [Hc _]]]]]]].
  split; [exact H1|].
  assert (Hcc : checked_cookies (E := demo) (cookies demo_args) tt
                = ([], tt, Returns None)) by reflexivity.
  rewrite Hcc in Hc. injection Hc as _ _ <-. exact H2.
Defined.

(** C6, as stated, fails: a [KeyboardInterrupt] raised for the second
    URL ends the loop, and the third URL is never passed to
    [extract_info]; when the construction of the [YoutubeDL] object
    raises, no URL is. *)
Lemma download_videos_stops_early :
  let run1 :=
    download_videos (E := demo) [lit "a"; lit "stop"; lit "b"] demo_args tt in
  let run2 :=
    download_videos (E := demo) [lit "a"; lit "b"]
      (set_cookies (Some (Text (lit "cookies.txt"))) demo_args) tt in
  (run1.2 = Raises KeyboardInterrupt /\
   extract_calls run1.1.1 = [lit "a"; lit "stop"]) /\
  (run2.2 = Raises (Exception "DownloadError") /\
   lib_calls run2.1.1
   = [ Lib_YoutubeDL
         (ydl_opts_for demo_args (Some (lit "cookies.txt")))
         (Raise (Exception "DownloadError")) ] /\
   extract_calls run2.1.1 = []).
Proof. cbv zeta. repeat split; vm_compute; reflexivity. Qed.

(** ** The trace of download_videos, whatever the library does *)

Lemma split_app {A} (l1 l2 pre post : list A) (x : A) :
  l1 ++ l2 = pre ++ x :: post ->
  (exists post', l1 = pre ++ x :: post' /\ post = post' ++ l2) \/
  (exists pre', pre = l1 ++ pre' /\ l2 = pre' ++ x :: post).
Proof.
  revert pre. induction l1 as [|a l1 IH]; intros pre H; simpl in H.
  - right. exists pre. split; [reflexivity | exact H].
  - destruct pre as [|b pre]; simpl in H.
    + injection H as -> <-. left. exists l1. split; reflexivity.
    + injection H as -> H. destruct (IH pre H) as [[q [-> ->]]|[p [-> ->]]].
      * left. exists q. split; reflexivity.
      * right. exists p. split; reflexivity.
Qed.

Lemma split_after {A} (P : A -> bool) (l1 l2 pre post : list A) (x : A) :
  Forall (fun a => P a = false) l1 -> P x = true ->
  l1 ++ l2 = pre ++ x :: post ->
  exists pre', pre = l1 ++ pre' /\ l2 = pre' ++ x :: post.
Proof.
  intros Hl1 Hx H.
  destruct (split_app _ _ _ _ _ H) as [[q [-> _]]|Hr]; [|exact Hr].
  apply Forall_app in Hl1. destruct Hl1 as [_ Hl1].
  inversion Hl1 as [|? ? Hx' _]. congruence.
Qed.

Lemma split_before {A} (P : A -> bool) (l1 l2 pre post : list A) (x : A) :
  Forall (fun a => P a = false) l2 -> P x = true ->
  l1 ++ l2 = pre ++ x :: post ->
  exists post', l1 = pre ++ x :: post' /\ post = post' ++ l2.
Proof.
  intros Hl2 Hx H.
  destruct (split_app _ _ _ _ _ H) as [Hl|[p [_ ->]]]; [exact Hl|].
  apply Forall_app in Hl2. destruct Hl2 as [_ Hl2].
  inversion Hl2 as [|? ? Hx' _]. congruence.
Qed.

Lemma follows_outcome_app (l pre : list event) (ev : event) :
  follows_outcome pre ev -> follows_outcome (l ++ pre) ev.
Proof.
  intros H. destruct H; rewrite app_assoc; constructor.
Qed.

(** In the trace of the loop, the log of a result comes right after the
    outcome of the calls it reports. *)
Lemma iterations_follows (urls_ : list pystr) (t : list event) :
  iterations urls_ t ->
  forall pre ev post,
    t = pre ++ ev :: post -> is_result_log ev = true ->
    follows_outcome pre ev.
Proof.
  induction 1 as [|url rest t1 t2 H1 _ IH]; intros pre ev post Ht Hev.
  - destruct pre; discriminate.
  - destruct (split_app _ _ _ _ _ Ht) as [[q [Hq _]]|[p [-> Hp]]].
    + destruct H1; destruct pre as [|a [|b [|c pre]]]; simplify_eq/=;
        try (destruct pre; discriminate).
      * apply (follows_downloaded []).
      * apply (follows_extract_raised []).
      * apply (follows_prepare_raised []).
    + apply follows_outcome_app. eapply IH; eauto.
Qed.

Lemma interrupted_no_log (url : pystr) (e : exn) (t : list event) :
  interrupted url e t ->
  Forall (fun ev => is_result_log ev = false) t /\ constructions t = [].
Proof. intros [H|info_ H]; split; repeat constructor. Qed.

Lemma loop_trace_constructions (urls_ : list pystr) (t : list event) :
  loop_trace urls_ t -> constructions t = [].
Proof.
  intros [H|[e [done url rest t1 t2 H1 H2]]].
  - exact (iterations_constructions _ _ H).
  - rewrite constructions_app, (iterations_constructions _ _ H1).
    exact (proj2 (interrupted_no_log _ _ _ H2)).
Qed.

Lemma loop_trace_follows (urls_ : list pystr) (t : list event) :
  loop_trace urls_ t ->
  forall pre ev post,
    t = pre ++ ev :: post -> is_result_log ev = true ->
    follows_outcome pre ev.
Proof.
  intros [H|[e [done url rest t1 t2 H1 H2]]] pre ev post Ht Hev.
  - exact (iterations_follows _ _ H _ _ _ Ht Hev).
  - destruct (split_before is_result_log _ _ _ _ _
                (proj1 (interrupted_no_log _ _ _ H2)) Hev Ht)
      as [post' [Ht1 _]].
    exact (iterations_follows _ _ H1 _ _ _ Ht1 Hev).
Qed.

Section Trace.
Context {E : environment}.

(** Every run of [download_videos] starts with the check of the cookies
    file, the debug log of the option map and the construction of the
    [YoutubeDL] object from that map.  Unless the construction raises,
    the trace of the loop follows, then the exit of the [with] block
    and the summary, if any. *)
Lemma download_videos_trace (urls_ : list pystr)
    (args : Namespace (list pystr)) (w : world) :
  exists t_check cookies_file r rest,
    ((t_check = [] /\ cookies_file = None) \/
     (exists p b, p <> [] /\ cookies args = Some (Text p) /\
                  t_check = [OS_isfile p b] /\
                  cookies_file = if b then Some p else None)) /\
    (download_videos urls_ args w).1.1
    = (t_check
       ++ [Log debug ydl_opts_msg
             [VDict (restrict logged_keys (ydl_opts_for args cookies_file))]])
      ++ Lib_YoutubeDL (ydl_opts_for args cookies_file) r :: rest /\
    (rest = [] \/
     exists t_loop r' failed,
       loop_trace urls_ t_loop /\
       rest = t_loop ++ Lib_close r' :: summary failed).
Proof.
  destruct (download_videos_run urls_ args w)
    as [t_check [w1 [cookies_file [Hc [Hshape H]]]]].
  cbv zeta in H.
  destruct H as [[e [w2 [Hy H]]]|[w2 [t_loop [w3 [o [r [w4 H]]]]]]].
  - exists t_check, cookies_file, (Raise e), [].
    split; [exact Hshape|]. rewrite H. split; [reflexivity|].
    left. reflexivity.
  - destruct H as [Hy [Hl [Hloop [Hx H]]]].
    exists t_check, cookies_file, (Return tt),
      (t_loop ++ Lib_close r
              :: match r, o with
                 | Return _, Returns failed => summary failed
                 | _, _ => []
                 end).
    split; [exact Hshape|]. rewrite H. split; [reflexivity|].
    right. exists t_loop, r.
    exists (match r, o with
            | Return _, Returns failed => failed
            | _, _ => []
            end).
    split.
    + destruct Hloop as [[Hi _]|[e [Hi _]]];
        [left; exact Hi | right; exists e; exact Hi].
    + destruct r as [[]|e], o as [failed|e'|s]; reflexivity.
Qed.

End Trace.

(** ** The cookies file *)

Lemma in_constructions (ydl_opts : dict) (r : call unit) (tr : list event) :
  In (Lib_YoutubeDL ydl_opts r) tr -> In ydl_opts (constructions tr).
Proof.
  unfold constructions. intros H.
  apply list_elem_of_In, list_elem_of_omap.
  exists (Lib_YoutubeDL ydl_opts r).
  split; [apply list_elem_of_In; exact H|]. reflexivity.
Qed.

Section Cookies.
Context {E : environment}.

(** C2, as amended.  When [argparse] hands over a namespace,
    [parse_args] returns, and its [cookies] attribute is what the
    command line gave, except that a non-empty path for which
    [os.path.isfile] answers false is replaced by [None], with a
    warning: the attribute is [None], or a falsy value that is never
    checked (the empty string, or the empty list that [argparse]
    stores for the value [--]), or a path for which [os.path.isfile]
    answered true during the parse.  And a [cookiefile] entry in the
    option map that [download_videos] hands to the library is a path
    for which [os.path.isfile] answered true at the start of that
    call. *)
Theorem cookies_checked :
  (forall argv w raw langs_,
      ArgParse.parse_args argv = inr raw -> langs raw = Text langs_ ->
      exists tr w' ns,
        parse_args argv w = (tr, w', Returns ns) /\
        match cookies raw with
        | Some (Text p) =>
            if Str.truthy p then
              if (os_path_isfile p w).1
              then tr = [OS_isfile p true] /\ cookies ns = Some (Text p)
              else tr = [ OS_isfile p false;
                          Log warning cookies_warning [VStr p] ] /\
                   cookies ns = None
            else tr = [] /\ cookies ns = Some (Text [])
        | Some Empty_list => tr = [] /\ cookies ns = Some Empty_list
        | None => tr = [] /\ cookies ns = None
        end) /\
  (forall argv w tr w' ns,
      parse_args argv w = (tr, w', Returns ns) ->
      cookies ns = None \/ cookies ns = Some (Text []) \/
      cookies ns = Some Empty_list \/
      exists p, p <> [] /\ cookies ns = Some (Text p) /\
                tr = [OS_isfile p true]) /\
  (forall urls_ args w tr w' o ydl_opts r v,
      download_videos urls_ args w = (tr, w', o) ->
      In (Lib_YoutubeDL ydl_opts r) tr ->
      ydl_opts !! "cookiefile" = Some v ->
      exists p post, v = VStr p /\ tr = OS_isfile p true :: post).
Proof.
  split; [|split].
  - intros argv w raw langs_ Hraw Hlangs. rewrite parse_args_run, Hraw, Hlangs.
    cbv zeta.
    destruct (cookies raw) as [[[|ch c]|]|] eqn:Hc; simpl.
    + do 3 eexists. split; [reflexivity|]. split; [reflexivity|exact Hc].
    + destruct (os_path_isfile (ch :: c) w).1;
        do 3 eexists; (split; [reflexivity|]); split;
        first [reflexivity | exact Hc].
    + do 3 eexists. split; [reflexivity|]. split; [reflexivity|exact Hc].
    + do 3 eexists. split; [reflexivity|]. split; [reflexivity|exact Hc].
  - intros argv w tr w' ns. rewrite parse_args_run.
    destruct (ArgParse.parse_args argv) as [[|e]|raw]; try discriminate.
    destruct (langs raw) as [langs_|]; [|discriminate].
    cbv zeta. destruct (cookies raw) as [[[|ch c]|]|] eqn:Hc; simpl.
    + intros [= <- <- <-]. right. left. exact Hc.
    + destruct (os_path_isfile (ch :: c) w).1; intros [= <- <- <-].
      * do 3 right. exists (ch :: c).
        split; [discriminate|]. split; [exact Hc | reflexivity].
      * left. reflexivity.
    + intros [= <- <- <-]. do 2 right. left. exact Hc.
    + intros [= <- <- <-]. left. exact Hc.
  - intros urls_ args w tr w' o ydl_opts r v Hrun Hin Hv.
    destruct (download_videos_trace urls_ args w)
      as [t_check [cookies_file [r' [rest [Hc [Htr Hrest]]]]]].
    rewrite Hrun in Htr. simpl in Htr.
    apply in_constructions in Hin.
    assert (Hcons : constructions tr = [ydl_opts_for args cookies_file]).
    { rewrite Htr, constructions_app.
      change (constructions (Lib_YoutubeDL (ydl_opts_for args cookies_file) r'
                               :: rest))
        with (ydl_opts_for args cookies_file :: constructions rest).
      replace (constructions rest) with (@nil dict).
      - destruct Hc as [[-> _]|[p [b [_ [_ [-> _]]]]]]; reflexivity.
      - destruct Hrest as [->|[t_loop [r'' [failed [Hloop ->]]]]];
          [reflexivity|].
        rewrite constructions_app, (loop_trace_constructions _ _ Hloop).
        destruct failed; reflexivity. }
    rewrite Hcons in Hin. destruct Hin as [<-|[]].
    unfold ydl_opts_for in Hv. rewrite build_ytdl_opts_cookiefile in Hv.
    destruct Hc as [[_ ->]|[p [b [Hne [_ [Ht ->]]]]]]; [discriminate|].
    destruct b; [|discriminate].
    destruct p as [|ch p]; [congruence|]. simpl in Hv.
    injection Hv as <-. rewrite Htr, Ht.
    eexists _, _. split; reflexivity.
Qed.
End Cookies.

Lemma cookies_checked_witness :
  let run1 :=
    parse_args (E := demo) [lit "-c"; lit "cookies.txt"; lit "u"] tt in
  let run2 :=
    parse_args (E := demo) [lit "-c"; lit "nowhere.txt"; lit "u"] tt in
  (run1.1.1 = [OS_isfile (lit "cookies.txt") true] /\
   (exists ns, run1.2 = Returns ns /\
               cookies ns = Some (Text (lit "cookies.txt")))) /\
  (run2.1.1 = [ OS_isfile (lit "nowhere.txt") false;
                Log warning cookies_warning [VStr (lit "nowhere.txt")] ] /\
   (exists ns, run2.2 = Returns ns /\ cookies ns = None)).
Proof.
  cbv zeta.



  split.
  - destruct (proj1 (cookies_checked (E := demo))
                [lit "-c"; lit "cookies.txt"; lit "u"] tt _ _
                eq_refl eq_refl)
      as [tr [w' [ns [Hrun H]]]].
    rewrite Hrun. simpl in H. destruct H as [-> H].
    split; [reflexivity|]. exists ns. split; [reflexivity | exact H].
  - destruct (proj1 (cookies_checked (E := demo))
                [lit "-c"; lit "nowhere.txt"; lit "u"] tt _ _
                eq_refl eq_refl)
      as [tr [w' [ns [Hrun H]]]].
    rewrite Hrun. simpl in H. destruct H as [-> H].
    split; [reflexivity|]. exists ns. split; [reflexivity | exact H].
Defined.

(** C2, as stated, fails: with [-c ''] the attribute [cookies] is the
    empty string, and with [--cookies=--] it is the empty list; neither
    is [None] or a path that [os.path.isfile] was asked about. *)
Lemma cookies_empty_string_kept :
  let run1 := parse_args (E := demo) [lit "-c"; lit ""; lit "u"] tt in
  let run2 := parse_args (E := demo) [lit "--cookies=--"; lit "u"] tt in
  (run1.1.1 = [] /\
   (exists ns, run1.2 = Returns ns /\ cookies ns = Some (Text [])) /\
   (os_path_isfile (environment := demo) (lit "") tt).1 = false) /\
  (run2.1.1 = [] /\
   exists ns, run2.2 = Returns ns /\ cookies ns = Some Empty_list).
Proof.
  cbv zeta. split; [split; [|split]|split].
  - vm_compute. reflexivity.
  - eexists. split; [vm_compute; reflexivity | reflexivity].
  - reflexivity.
  - vm_compute. reflexivity.
  - eexists. split; [vm_compute; reflexivity | reflexivity].
Qed.

(** ** main *)

Lemma Forall_no_split {A} (P : A -> bool) (l pre post : list A) (x : A) :
  Forall (fun a => P a = false) l -> l = pre ++ x :: post -> P x = false.
Proof.
  intros H ->. apply Forall_app in H. destruct H as [_ H].
  inversion H. assumption.
Qed.

Lemma of_download_not_lib (t : list event) :
  Forall (fun ev => of_download ev = false) t ->
  Forall (fun ev => is_lib ev = false) t.
Proof.
  induction 1 as [|ev t H _ IH]; constructor; [|exact IH].
  unfold of_download in H. apply orb_false_iff in H. tauto.
Qed.

Section Main.
Context {E : environment}.

(** [parse_args] makes no call on the library, and logs neither a
    result nor the options. *)
Lemma parse_args_trace (argv : list pystr) (w w' : world)
    (t : list event) (o : outcome (Namespace (list pystr))) :
  parse_args argv w = (t, w', o) ->
  Forall (fun ev => of_download ev = false) t /\
  Forall (fun ev => is_result_log ev = false) t.
Proof.
  rewrite parse_args_run.
  destruct (ArgParse.parse_args argv) as [[|e]|raw]; simpl.
  - intros [= <- _ _]. split; repeat constructor.
  - intros [= <- _ _]. split; repeat constructor.
  - destruct (langs raw) as [langs_|];
      [|intros [= <- _ _]; split; constructor].
    destruct (cookies raw) as [[c|]|];
      [destruct (Str.truthy c); [destruct (os_path_isfile c w).1|]| |];
      intros [= <- _ _]; split; repeat constructor.
Qed.

(** [parse_args] returns a namespace with the URLs that [argparse]
    found, or leaves the program as [argparse] does, or raises
    [AttributeError] on line 319. *)
Lemma parse_args_outcome (argv : list pystr) (w : world) :
  (parse_args argv w = ([Print_help], w, Exits 0) /\
   ArgParse.parse_args argv = inl ArgParse.Help) \/
  (exists e, parse_args argv w = ([Print_error e], w, Exits 2) /\
             ArgParse.parse_args argv = inl (ArgParse.Error e)) \/
  (exists raw,
      parse_args argv w = ([], w, Raises (Exception "AttributeError")) /\
      ArgParse.parse_args argv = inr raw /\ langs raw = Empty_list) \/
  (exists t w' args raw, parse_args argv w = (t, w', Returns args) /\
                         ArgParse.parse_args argv = inr raw /\
                         urls args = urls raw /\
                         log_level args = log_level raw).
Proof.
  rewrite parse_args_run.
  destruct (ArgParse.parse_args argv) as [[|e]|raw]; simpl.
  - left. split; reflexivity.
  - right. left. exists e. split; reflexivity.
  - right. right.
    destruct (langs raw) as [langs_|] eqn:Hl;
      [right|left; exists raw; repeat split; assumption].
    destruct (cookies raw) as [[c|]|];
      [destruct (Str.truthy c); [destruct (os_path_isfile c w).1|]| |];
      eexists _, _, _, raw; (split; [reflexivity|]); repeat split.
Qed.

(** [main] ends as [parse_args] does when that does not return, raises
    [TypeError] when the level name is not a string, and otherwise
    goes on with [logging.basicConfig] and [download_videos] on the
    parsed URLs. *)
Lemma main_run (sys_argv : list pystr) (argv : option (list pystr))
    (w : world) :
  main sys_argv argv w =
  let '(t1, w1, o) := parse_args (argv_or_sys sys_argv argv) w in
  match o with
  | Returns args =>
      match log_level args with
      | Empty_list => (t1, w1, Raises (Exception "TypeError"))
      | Text level =>
          let '(t2, w2, o2) := download_videos (urls args) args w1 in
          (t1 ++ BasicConfig level :: t2, w2, after_download o2)
      end
  | Raises e => (t1, w1, Raises e)
  | Exits s => (t1, w1, Exits s)
  end.
Proof.
  unfold main, bind at 1.
  destruct (parse_args (argv_or_sys sys_argv argv) w) as [[t1 w1] [args|e|s]];
    try reflexivity.
  destruct (log_level args) as [level|];
    [|unfold raise; rewrite app_nil_r; reflexivity].
  unfold bind, emit, ret.
  destruct (download_videos (urls args) args w1) as [[t2 w2] [failed|e|s]];
    simpl; rewrite ?app_nil_r; reflexivity.
Qed.

(** C10, as amended: [parse_args] never returns a namespace with an
    empty list of URLs; on a command line without any argument string
    (all strings are option strings or the separator) the parser
    leaves the program, with status 2 after an error message or with
    status 0 after the help text of [-h]; so [main] reaches
    [download_videos] only with at least one URL: either [main] ends
    before it, without a call on the library and without the debug
    log of the options, or [parse_args] has returned a namespace with
    a URL and [main] ends as [download_videos] does on these URLs. *)
Theorem parse_args_requires_url (sys_argv : list pystr)
    (argv : option (list pystr)) (w : world) :
  let argv' := argv_or_sys sys_argv argv in
  (forall tr w' ns,
      parse_args argv' w = (tr, w', Returns ns) -> urls ns <> []) /\
  (ArgParse.arguments argv' = [] ->
   parse_args argv' w = ([Print_help], w, Exits 0) \/
   exists e, parse_args argv' w = ([Print_error e], w, Exits 2)) /\
  ((exists t w' o,
       main sys_argv argv w = (t, w', o) /\ o <> Returns tt /\
       Forall (fun ev => of_download ev = false) t) \/
   (exists args t1 w1 level,
       parse_args argv' w = (t1, w1, Returns args) /\
       urls args <> [] /\
       log_level args = Text level /\
       main sys_argv argv w
       = (t1 ++ BasicConfig level
             :: (download_videos (urls args) args w1).1.1,
          (download_videos (urls args) args w1).1.2,
          after_download (download_videos (urls args) args w1).2))).
Proof.
  cbv zeta.
  assert (Hurls : forall tr w' ns,
             parse_args (argv_or_sys sys_argv argv) w = (tr, w', Returns ns) ->
             urls ns <> []).
  { intros tr w' ns H.
    destruct (parse_args_outcome (argv_or_sys sys_argv argv) w)
      as [[H' _]|[[e [H' _]]|[[raw [H' _]]
                             |[t [w1 [args [raw [H' [Hraw [Hu _]]]]]]]]]];
      rewrite H' in H; try discriminate.
    injection H as _ _ <-. rewrite Hu.
    apply (ArgParseFacts.parse_args_urls _ _ Hraw). }
  split; [exact Hurls|]. split.
  - intros Hnone.
    destruct (parse_args_outcome (argv_or_sys sys_argv argv) w)
      as [[H' _]|[[e [H' _]]|[[raw [_ [Hraw _]]]
                             |[t [w1 [args [raw [_ [Hraw _]]]]]]]]].
    + left. exact H'.
    + right. exists e. exact H'.
    + destruct (ArgParseFacts.parse_args_urls _ _ Hraw) as [_ Hargs].
      contradiction.
    + destruct (ArgParseFacts.parse_args_urls _ _ Hraw) as [_ Hargs].
      contradiction.
  - rewrite main_run.
    destruct (parse_args (argv_or_sys sys_argv argv) w)
      as [[t1 w1] [args|e|s]] eqn:Hp;
      destruct (parse_args_trace _ _ _ _ _ Hp) as [Hfree _].
    + destruct (log_level args) as [level|] eqn:Hlevel.
      * right. exists args, t1, w1, level.
        split; [reflexivity|]. split; [exact (Hurls _ _ _ eq_refl)|].
        split; [exact Hlevel|].
        destruct (download_videos (urls args) args w1) as [[t2 w2] o2].
        reflexivity.
      * left. do 3 eexists. split; [reflexivity|].
        split; [discriminate | exact Hfree].
    + left. do 3 eexists. split; [reflexivity|].
      split; [discriminate | exact Hfree].
    + left. do 3 eexists. split; [reflexivity|].
      split; [discriminate | exact Hfree].
Qed.
End Main.

Lemma parse_args_requires_url_witness :
  (exists ns,
      (parse_args (E := demo) [lit "-q"; lit "u"] tt).2 = Returns ns /\
      urls ns <> []) /\
  (ArgParse.arguments [lit "-q"] = [] /\
   parse_args (E := demo) [lit "-q"] tt
   = ([Print_error required_urls], tt, Exits 2)) /\
  (ArgParse.arguments [[45; 1633; 1634]%N] = [[45; 1633; 1634]%N] /\
   exists ns,
     (parse_args (E := demo) [[45; 1633; 1634]%N] tt).2 = Returns ns /\
     urls ns = [[45; 1633; 1634]%N]).
Proof.
  split; [|split].
  - eexists. split; [vm_compute; reflexivity|].
    apply (proj1 (parse_args_requires_url (E := demo) []
                    (Some [lit "-q"; lit "u"]) tt) [] tt _ eq_refl).
  - split; [reflexivity|].
    destruct (proj1 (proj2 (parse_args_requires_url (E := demo) []
                              (Some [lit "-q"]) tt)) eq_refl)
      as [H|[e H]].
    + discriminate H.
    + vm_compute. reflexivity.
  - split; [vm_compute; reflexivity|].
    eexists. split; vm_compute; reflexivity.
Defined.

(** C10, as stated, fails: the command line [-h] has no positional
    argument, and the parser does not report an argument error: it
    prints the help text and leaves with status 0. *)
Lemma parse_args_help_is_not_an_error :
  ArgParse.arguments [lit "-h"] = [] /\
  parse_args (E := demo) [lit "-h"] tt = ([Print_help], tt, Exits 0) /\
  ~ (exists e, parse_args (E := demo) [lit "-h"] tt
               = ([Print_error e], tt, Exits 2)).
Proof.
  split; [reflexivity|]. split; [reflexivity|].
  intros [e H]. discriminate H.
Qed.

Section Order.
Context {E : environment}.

(** C8: in every run of [main], a call on the library comes after the
    whole of [parse_args], which has returned a namespace, after
    [logging.basicConfig], after the check of the cookies file and
    after the debug log of the option map built by [build_ytdl_opts];
    the first call on the library is the construction of the
    [YoutubeDL] object from that map.  The log of the result of a URL
    ([Downloaded] or [Download failed]) comes right after the library
    call that returned or raised for that URL. *)
Theorem main_order (sys_argv : list pystr) (argv : option (list pystr))
    (w : world) :
  let tr := (main sys_argv argv w).1.1 in
  (forall pre ev post,
      tr = pre ++ ev :: post -> is_lib ev = true ->
      exists args t1 w1 level t_check cookies_file r rest,
        parse_args (argv_or_sys sys_argv argv) w = (t1, w1, Returns args) /\
        log_level args = Text level /\
        Forall (fun e => is_lib e = false)
          (t1 ++ BasicConfig level :: t_check) /\
        pre ++ [ev]
        = t1 ++ BasicConfig level :: t_check
          ++ Log debug ydl_opts_msg
               [VDict (restrict logged_keys
                         (ydl_opts_for args cookies_file))]
          :: Lib_YoutubeDL (ydl_opts_for args cookies_file) r :: rest) /\
  (forall pre ev post,
      tr = pre ++ ev :: post -> is_result_log ev = true ->
      follows_outcome pre ev).
Proof.
  cbv zeta. rewrite main_run.
  destruct (parse_args (argv_or_sys sys_argv argv) w)
    as [[t1 w1] o] eqn:Hp.
  destruct (parse_args_trace _ _ _ _ _ Hp) as [Hlib Hlog].
  apply of_download_not_lib in Hlib.
  assert (Hnone : forall t : list event,
             t = t1 ->
             (forall pre ev post,
                 t = pre ++ ev :: post -> is_lib ev = true ->
                 exists args t1' w1' level t_check cookies_file r rest,
                   (t1, w1, o) = (t1', w1', Returns args) /\
                   log_level args = Text level /\
                   Forall (fun e => is_lib e = false)
                     (t1' ++ BasicConfig level :: t_check) /\
                   pre ++ [ev]
                   = t1' ++ BasicConfig level :: t_check
                     ++ Log debug ydl_opts_msg
                          [VDict (restrict logged_keys
                                    (ydl_opts_for args cookies_file))]
                     :: Lib_YoutubeDL (ydl_opts_for args cookies_file) r
                     :: rest) /\
             (forall pre ev post,
                 t = pre ++ ev :: post -> is_result_log ev = true ->
                 follows_outcome pre ev)).
  { intros t ->. split; intros pre ev post Ht Hev.
    - rewrite (Forall_no_split _ _ _ _ _ Hlib Ht) in Hev. discriminate.
    - rewrite (Forall_no_split _ _ _ _ _ Hlog Ht) in Hev. discriminate. }
  destruct o as [args|e|s]; [|exact (Hnone _ eq_refl)..].
  destruct (log_level args) as [level|] eqn:Hlevel;
    [|exact (Hnone _ eq_refl)].
  clear Hnone.
  destruct (download_videos_trace (urls args) args w1)
    as [t_check [cookies_file [r [rest [Hc [Htr Hrest]]]]]].
  destruct (download_videos (urls args) args w1) as [[t2 w2] o2].
  simpl in Htr. subst t2. simpl.
  set (dbg := Log debug ydl_opts_msg
                [VDict (restrict logged_keys
                          (ydl_opts_for args cookies_file))]) in *.
  set (new := Lib_YoutubeDL (ydl_opts_for args cookies_file) r) in *.
  assert (Hcheck : Forall (fun e => is_lib e = false) t_check /\
                   Forall (fun e => is_result_log e = false) t_check).
  { destruct Hc as [[-> _]|[p [b [_ [_ [-> _]]]]]];
      split; repeat constructor. }
  destruct Hcheck as [Hclib Hclog].
  assert (Htr : t1 ++ BasicConfig level :: (t_check ++ [dbg]) ++ new :: rest
                = (t1 ++ BasicConfig level :: t_check ++ [dbg])
                  ++ new :: rest).
  { rewrite <- !app_assoc. simpl. rewrite <- !app_assoc. reflexivity. }
  rewrite Htr. clear Htr.
  split; intros pre ev post Ht Hev.
  - assert (Hfree : Forall (fun e => is_lib e = false)
                      (t1 ++ BasicConfig level :: t_check ++ [dbg])).
    { apply Forall_app. split; [exact Hlib|].
      constructor; [reflexivity|].
      apply Forall_app. split; [exact Hclib | repeat constructor]. }
    destruct (split_after is_lib _ _ _ _ _ Hfree Hev Ht)
      as [pre' [-> Hrest']].
    exists args, t1, w1, level, t_check, cookies_file, r.
    destruct pre' as [|x pre'']; simpl in Hrest'.
    + injection Hrest' as <- _. exists [].
      split; [reflexivity|]. split; [exact Hlevel|]. split.
      { apply Forall_app. split; [exact Hlib|].
        constructor; [reflexivity | exact Hclib]. }
      rewrite app_nil_r, <- !app_assoc. simpl.
      rewrite <- !app_assoc. reflexivity.
    + injection Hrest' as <- _. exists (pre'' ++ [ev]).
      split; [reflexivity|]. split; [exact Hlevel|]. split.
      { apply Forall_app. split; [exact Hlib|].
        constructor; [reflexivity | exact Hclib]. }
      rewrite <- !app_assoc. simpl. rewrite <- !app_assoc. reflexivity.
  - assert (Hfree : Forall (fun e => is_result_log e = false)
                      ((t1 ++ BasicConfig level :: t_check ++ [dbg])
                       ++ [new])).
    { apply Forall_app. split; [|repeat constructor].
      apply Forall_app. split; [exact Hlog|].
      constructor; [reflexivity|].
      apply Forall_app. split; [exact Hclog | repeat constructor]. }
    assert (Ht' : ((t1 ++ BasicConfig level :: t_check ++ [dbg]) ++ [new])
                  ++ rest
                  = pre ++ ev :: post).
    { rewrite <- Ht, <- !app_assoc. reflexivity. }
    destruct (split_after is_result_log _ _ _ _ _ Hfree Hev Ht')
      as [pre' [-> Hrest']].
    destruct Hrest as [->|[t_loop [r' [failed [Hloop ->]]]]];
      [destruct pre'; discriminate|].
    assert (Htail : Forall (fun e => is_result_log e = false)
                      (Lib_close r' :: summary failed))
      by (destruct failed; repeat constructor).
    destruct (split_before is_result_log _ _ _ _ _ Htail Hev Hrest')
      as [post' [Hloop' _]].
    apply follows_outcome_app.
    exact (loop_trace_follows _ _ Hloop _ _ _ Hloop' Hev).
Qed.
End Order.

Lemma main_order_witness :
  let tr := (main (E := demo) [] (Some [lit "bad"]) tt).1.1 in
  let call := Lib_extract_info (lit "bad") (Raise (Exception "DownloadError")) in
  let log := Log exception failed_msg
               [VExc (Exception "DownloadError"); VStr (lit "bad")] in
  tr = take 3 tr ++ call :: log :: drop 5 tr /\
  follows_outcome (take 4 tr) log /\
  exists args t1 w1 level t_check cookies_file r rest,
    parse_args (E := demo) [lit "bad"] tt = (t1, w1, Returns args) /\
    log_level args = Text level /\
    Forall (fun e => is_lib e = false)
      (t1 ++ BasicConfig level :: t_check) /\
    take 3 tr ++ [call]
    = t1 ++ BasicConfig level :: t_check
      ++ Log debug ydl_opts_msg
           [VDict (restrict logged_keys (ydl_opts_for args cookies_file))]
      :: Lib_YoutubeDL (ydl_opts_for args cookies_file) r :: rest.
Proof.
  cbv zeta. split; [vm_compute; reflexivity|]. split.
  - apply (proj2 (main_order (E := demo) [] (Some [lit "bad"]) tt)
             _ _ (drop 5 (main (E := demo) [] (Some [lit "bad"]) tt).1.1)).
    + vm_compute. reflexivity.
    + reflexivity.
  - apply (proj1 (main_order (E := demo) [] (Some [lit "bad"]) tt)
             _ _ (drop 4 (main (E := demo) [] (Some [lit "bad"]) tt).1.1)).
    + vm_compute. reflexivity.
    + reflexivity.
Defined.

(** ** progress_hook *)

Lemma eqb_eq (s t : pystr) : Str.eqb s t = true -> s = t.
Proof.
  revert t. induction s as [|c s IH]; intros [|d t]; simpl; try discriminate.
  - reflexivity.
  - intros H. apply andb_prop in H. destruct H as [Hc Hs].
    apply N.eqb_eq in Hc. subst d. f_equal. apply IH. exact Hs.
Qed.

(** C4, as amended: the hook writes to stdout only for an event whose
    status is [downloading], and then only the progress line, followed
    by a flush; it writes them when the total is truthy and the three
    values of the line can be formatted.  For an event whose status is [finished] or
    [post_process] it passes the file name of the event to
    [logging.info], with the message [Processed: %s], when that name is
    truthy: the name is the value of the key [filename], or else of
    the key [_filename] of [info_dict]; it does nothing else, and
    nothing when the name is falsy.  For an event with any other status
    it produces no output. *)
Theorem progress_hook_output (d : dict) :
  let status := get d "status" in
  let out := (progress_hook d).1 in
  (eq_str status "downloading" = true ->
   (out = [] \/
    exists pct speed,
      out = [ Stdout_write (ProgressLine pct speed (get_or d "eta" (VInt 0)));
              Stdout_flush ]) /\
   (forall ratio speed,
       truthy (py_or (get d "total_bytes") (get d "total_bytes_estimate"))
       = true ->
       truediv (get_or d "downloaded_bytes" (VInt 0))
         (py_or (get d "total_bytes") (get d "total_bytes_estimate"))
       = Returns ratio ->
       format_f (get_or d "speed" (VInt 0)) = Returns speed ->
       unprintable (get_or d "eta" (VInt 0)) = false ->
       progress_hook d
       = ([ Stdout_write
              (ProgressLine (ratio * 100)%float speed
                 (get_or d "eta" (VInt 0)));
            Stdout_flush ], Returns tt))) /\
  (eq_str status "finished" || eq_str status "post_process" = true ->
   (truthy (get d "filename") = true ->
    progress_hook d
    = ([Log info processed_msg [get d "filename"]], Returns tt)) /\
   (truthy (get d "filename") = false ->
    match get_or d "info_dict" (VDict ∅) with
    | VDict info_dict =>
        progress_hook d
        = (if truthy (get info_dict "_filename")
           then [Log info processed_msg [get info_dict "_filename"]]
           else [],
           Returns tt)
    | _ => progress_hook d = ([], Raises (Exception "AttributeError"))
    end)) /\
  (eq_str status "downloading" = false ->
   eq_str status "finished" || eq_str status "post_process" = false ->
   out = []).
Proof.
  cbv zeta. unfold progress_hook. split; [|split].
  - intros ->. split.
    + destruct (truthy _); [|left; reflexivity].
      destruct (truediv _ _) as [ratio|e|s]; [|left; reflexivity..].
      destruct (format_f _) as [speed|e|s]; [|left; reflexivity..].
      destruct (unprintable _); [left; reflexivity|].
      right. eexists _, _. reflexivity.
    + intros ratio speed -> -> -> ->. reflexivity.
  - intros Hs.
    assert (Hd : eq_str (get d "status") "downloading" = false).
    { destruct (get d "status"); try reflexivity.
      unfold eq_str in *.
      destruct (Str.eqb s (lit "downloading")) eqn:Hdl; [|reflexivity].
      apply eqb_eq in Hdl. subst s. discriminate Hs. }
    assert (Hh : hashable (get d "status") = true).
    { destruct (get d "status"); try reflexivity;
        apply orb_true_iff in Hs; destruct Hs as [Hs|Hs]; discriminate Hs. }
    rewrite Hd, Hh, Hs. simpl. split.
    + intros Hf. rewrite Hf, Hf. reflexivity.
    + intros Hf. rewrite Hf.
      destruct (get_or d "info_dict" (VDict ∅)); try reflexivity.
      destruct (truthy (get m "_filename")); reflexivity.
  - intros -> Hs. rewrite Hs.
    destruct (hashable (get d "status")); reflexivity.
Qed.

Lemma progress_hook_output_witness :
  progress_hook event_finished
  = ([Log info processed_msg [VStr (lit "a.mp4")]], Returns tt) /\
  progress_hook event_downloading
  = ([Stdout_write (ProgressLine 50 2048 (VInt 3)); Stdout_flush],
     Returns tt).
Proof.
  split.
  - exact (proj1 (proj1 (proj2 (progress_hook_output event_finished))
                    eq_refl) eq_refl).
  - exact (proj2 (proj1 (progress_hook_output event_downloading) eq_refl)
             (1 / 2)%float 2048%float eq_refl eq_refl eq_refl eq_refl).
Defined.

(** C4, as stated, fails: for the event [{'status': 'finished',
    'filename': 'a.mp4'}], whose status is not [downloading], the hook
    produces output: it logs [Processed: a.mp4]. *)
Lemma progress_hook_logs_finished :
  eq_str (get event_finished "status") "downloading" = false /\
  progress_hook event_finished
  = ([Log info processed_msg [VStr (lit "a.mp4")]], Returns tt) /\
  (progress_hook event_finished).1 <> [].
Proof.
  split; [reflexivity|]. split; [vm_compute; reflexivity|].
  vm_compute. discriminate.
Qed.

(** C5: the code does not do what the claim says.  For an event with
    status [downloading], a truthy total and the key [speed] present
    with the value [None], the hook raises [TypeError] when it formats
    the speed, and writes no progress line. *)
Theorem progress_hook_speed_none :
  eq_str (get event_speed_unknown "status") "downloading" = true /\
  truthy (py_or (get event_speed_unknown "total_bytes")
            (get event_speed_unknown "total_bytes_estimate")) = true /\
  progress_hook event_speed_unknown = ([], Raises (Exception "TypeError")).
Proof. repeat split; vm_compute; reflexivity. Qed.

Lemma truthy_number (v : pyval) (y : num) :
  truthy v = true -> number v = Some y -> is_zero y = false.
Proof.
  destruct v; simpl; try discriminate.
  - intros -> [= <-]. reflexivity.
  - intros H [= <-]. simpl.
    destruct (z =? 0); [discriminate H | reflexivity].
  - intros H [= <-]. simpl.
    destruct (PrimFloat.eqb f 0); [discriminate H | reflexivity].
Qed.

Lemma float_of_int_raises (z : Z) (e : exn) :
  float_of_int z = Raises e -> e = Exception "OverflowError".
Proof.
  unfold float_of_int. destruct (is_infinity _); intros [= <-]. reflexivity.
Qed.

Lemma to_float_outcome (n : num) :
  (exists f, to_float n = Returns f) \/
  to_float n = Raises (Exception "OverflowError").
Proof.
  destruct n as [z|f]; simpl; [|left; eexists; reflexivity].
  unfold float_of_int. destruct (is_infinity _);
    [right | left; eexists]; reflexivity.
Qed.

Lemma int_truediv_outcome (a b : Z) :
  (exists f, int_truediv a b = Returns f) \/
  int_truediv a b = Raises (Exception "OverflowError").
Proof.
  unfold int_truediv. cbv zeta. destruct (is_infinity _);
    [right | left; eexists]; reflexivity.
Qed.

(** A division by a truthy value does not raise [ZeroDivisionError]. *)
Lemma truediv_outcome (a b : pyval) :
  truthy b = true ->
  (exists f, truediv a b = Returns f) \/
  truediv a b = Raises (Exception "OverflowError") \/
  truediv a b = Raises (Exception "TypeError").
Proof.
  intros Ht. unfold truediv.
  destruct (number a) as [x|]; [|auto].
  destruct (number b) as [y|] eqn:Hy; [|destruct x; auto].
  pose proof (truthy_number _ _ Ht Hy) as Hz.
  assert (Hmixed :
            (exists f,
                match to_float x with
                | Returns fx =>
                    match to_float y with
                    | Returns fy =>
                        if is_zero y
                        then Raises (Exception "ZeroDivisionError")
                        else Returns (fx / fy)%float
                    | Raises e => Raises e
                    | Exits s => Exits s
                    end
                | Raises e => Raises e
                | Exits s => Exits s
                end = Returns f) \/
            match to_float x with
            | Returns fx =>
                match to_float y with
                | Returns fy =>
                    if is_zero y
                    then Raises (Exception "ZeroDivisionError")
                    else Returns (fx / fy)%float
                | Raises e => Raises e
                | Exits s => Exits s
                end
            | Raises e => Raises e
            | Exits s => Exits s
            end = Raises (Exception "OverflowError")).
  { rewrite Hz.
    destruct (to_float_outcome x) as [[fx ->]| ->]; [|auto].
    destruct (to_float_outcome y) as [[fy ->]| ->]; [|auto].
    left. eexists. reflexivity. }
  destruct x as [x|x], y as [y|y];
    try (destruct Hmixed as [H|H]; [left; exact H | right; left; exact H]).
  simpl in Hz. rewrite Hz.
  destruct (int_truediv_outcome x y) as [H|H]; auto.
Qed.

Lemma format_f_outcome (v : pyval) :
  (exists f, format_f v = Returns f) \/
  In (format_f v)
    [ Raises (Exception "ValueError"); Raises (Exception "TypeError");
      Raises (Exception "OverflowError") ].
Proof.
  unfold format_f.
  destruct v; simpl; auto;
    match goal with
    | |- context [float_of_int ?z] =>
        destruct (to_float_outcome (Int z)) as [[f H]|H]; simpl in H;
        rewrite H; [left; eexists; reflexivity | auto]
    | _ => left; eexists; reflexivity
    end.
Qed.

(** X1: the division of line 59 is guarded: the hook never raises
    [ZeroDivisionError]. *)
Theorem progress_hook_no_zero_division (d : dict) :
  (progress_hook d).2 <> Raises (Exception "ZeroDivisionError").
Proof.
  unfold progress_hook.
  destruct (eq_str (get d "status") "downloading").
  - destruct (truthy _) eqn:Ht; [|discriminate].
    destruct (truediv_outcome (get_or d "downloaded_bytes" (VInt 0)) _ Ht)
      as [[ratio ->]|[-> | ->]]; [|discriminate..].
    destruct (format_f_outcome (get_or d "speed" (VInt 0)))
      as [[speed ->]|[<-|[<-|[<-|[]]]]]; [|discriminate..].
    destruct (unprintable _); discriminate.
  - destruct (hashable _); simpl; [|discriminate].
    destruct (_ || _); [|discriminate].
    destruct (truthy (get d "filename")); [rewrite ?Tauto.if_same|].
    + destruct (truthy (get d "filename")); discriminate.
    + destruct (get_or d "info_dict" (VDict ∅)); try discriminate.
      destruct (truthy _); discriminate.
Qed.



(** ** Further properties of build_ytdl_opts *)

Lemma lookup_set_if_eq (k : string) (b : bool) (d : dict) :
  set_if k b d !! k = if b then Some (VBool true) else d !! k.
Proof.
  unfold set_if. destruct b; [apply lookup_insert_eq | reflexivity].
Qed.

Lemma display_paths (output_dir_ : option pystr) (langs_ : list pystr)
    (quiet_ : bool) :
  ydl_opts_display output_dir_ langs_ quiet_ !! "paths"
  = match output_dir_ with
    | Some o =>
        if Str.truthy o then Some (VDict (dict_of [("home", VStr o)]))
        else None
    | None => None
    end.
Proof.
  unfold ydl_opts_display.
  destruct output_dir_ as [[|c o]|]; vm_compute; reflexivity.
Qed.

(** X4: each optional setting is in the map exactly when its argument is
    truthy, with the argument as value: [cookiefile], [ffmpeg_location]
    and [playlist_items] for a non-empty string, [writeautomaticsub] and
    [noplaylist] for a flag that is set, and [paths] (the output
    directory as [home]) for a non-empty [output_dir]; [None] and the
    empty string leave the key out. *)
Theorem build_ytdl_opts_optional
    (output_dir_ cookies_file : option pystr) (langs_ : list pystr)
    (ffmpeg_location : option pystr) (quiet_ auto_sub_ no_playlist_ : bool)
    (playlist_items_ : option pystr) (write_infojson_ clean_infojson_ : bool) :
  let ydl_opts :=
    build_ytdl_opts output_dir_ cookies_file langs_ ffmpeg_location quiet_
      auto_sub_ no_playlist_ playlist_items_ write_infojson_ clean_infojson_ in
  let str_entry o := if opt_truthy o then VStr <$> o else None in
  let flag_entry (b : bool) := if b then Some (VBool true) else None in
  ydl_opts !! "cookiefile" = str_entry cookies_file /\
  ydl_opts !! "ffmpeg_location" = str_entry ffmpeg_location /\
  ydl_opts !! "playlist_items" = str_entry playlist_items_ /\
  ydl_opts !! "writeautomaticsub" = flag_entry auto_sub_ /\
  ydl_opts !! "noplaylist" = flag_entry no_playlist_ /\
  ydl_opts !! "paths"
  = match output_dir_ with
    | Some o =>
        if Str.truthy o then Some (VDict (dict_of [("home", VStr o)]))
        else None
    | None => None
    end.
Proof.
  cbv zeta. unfold build_ytdl_opts.
  repeat split; destruct write_infojson_; skip_updates;
    try (rewrite lookup_set_if_str_eq; skip_updates;
         rewrite display_absent by (simpl; tauto); reflexivity);
    try (rewrite lookup_set_if_eq; skip_updates;
         rewrite display_absent by (simpl; tauto); reflexivity);
    apply display_paths.
Qed.

(** ** Further properties of parse_args *)

Lemma mem_In (x : pystr) (xs : list pystr) : Str.mem x xs = true -> In x xs.
Proof.
  unfold Str.mem. intros H. apply existsb_exists in H.
  destruct H as [y [Hy He]]. apply eqb_eq in He. subst y. exact Hy.
Qed.

Module ArgParseMore.
Import ArgParse.

(** A property of the parser state that every step keeps is kept by
    the whole loop. *)
Lemma consume_invariant (Inv : state -> Prop) :
  (forall run st, Inv st -> Inv (consume_positionals run st)) ->
  (forall xs st, Inv st -> Inv (add_extras xs st)) ->
  (forall a v st st', take_action a v st = inr st' -> Inv st -> Inv st') ->
  forall n pattern run st st',
    (length pattern <= n)%nat -> Inv st ->
    consume pattern run st = inr st' -> Inv st'.
Proof.
  intros Hpos Hextra Htake.
  assert (Htakes : forall tuples st st',
             take_actions tuples st = inr st' -> Inv st -> Inv st').
  { induction tuples as [|[a v] tuples IH]; simpl; intros st st' H Hst.
    - injection H as <-. exact Hst.
    - destruct (take_action a v st) as [r|st1] eqn:Ha; [discriminate|].
      eapply IH; [exact H|]. eapply Htake; eauto. }
  induction n as [|n IH]; intros pattern run st st' Hlen Hst H.
  - destruct pattern; [|simpl in Hlen; lia].
    simpl in H. injection H as <-. apply Hpos. exact Hst.
  - destruct pattern as [|[arg c] rest].
    { simpl in H. injection H as <-. apply Hpos. exact Hst. }
    simpl in Hlen. apply le_S_n in Hlen.
    assert (Hnext : forall (l : list (pystr * cls)) v st1,
              rest = (v, A) :: l \/ rest = l -> Inv st1 ->
              consume l [] st1 = inr st' -> Inv st').
    { intros l v st1 Hl Hst1 Hc.
      eapply IH; [|exact Hst1|exact Hc].
      destruct Hl as [->| ->]; simpl in *; lia. }
    destruct c as [|a os ea|].
    + simpl in H. eapply IH; [exact Hlen|exact Hst|exact H].
    + destruct a as [a|]; simpl in H.
      * destruct ea as [ea|].
        -- destruct (attached a os ea []) as [e|[tuples [[a' os']|]]];
             [discriminate| |].
           ++ destruct (takes_value a').
              ** destruct rest as [|[value [| |]] rest']; try discriminate.
                 destruct (take_actions _ _) as [r|st1] eqn:Ht; [discriminate|].
                 eapply (Hnext rest' value st1); [left; reflexivity| |exact H].
                 eapply Htakes; eauto.
              ** destruct (take_actions _ _) as [r|st1] eqn:Ht; [discriminate|].
                 eapply (Hnext rest [] st1); [right; reflexivity| |exact H].
                 eapply Htakes; eauto.
           ++ destruct (take_actions _ _) as [r|st1] eqn:Ht; [discriminate|].
              eapply (Hnext rest [] st1); [right; reflexivity| |exact H].
              eapply Htakes; eauto.
        -- destruct (takes_value a).
           ++ destruct rest as [|[value [| |]] rest']; try discriminate.
              destruct (take_action _ _ _) as [r|st1] eqn:Ht; [discriminate|].
              eapply (Hnext rest' value st1); [left; reflexivity| |exact H].
              eapply Htake; eauto.
           ++ destruct (take_action _ _ _) as [r|st1] eqn:Ht; [discriminate|].
              eapply (Hnext rest [] st1); [right; reflexivity| |exact H].
              eapply Htake; eauto.
      * eapply (Hnext rest [] _); [right; reflexivity| |exact H].
        apply Hextra, Hpos. exact Hst.
    + simpl in H. eapply IH; [exact Hlen|exact Hst|exact H].
Qed.

(** The namespace that [argparse] hands over has a log level among the
    declared choices, unless the value given was [--]. *)
Lemma parse_args_log_level (argv : list pystr) (ns : Namespace stored) :
  parse_args argv = inr ns ->
  match log_level ns with
  | Text level =>
      In level [lit "DEBUG"; lit "INFO"; lit "WARNING"; lit "ERROR"]
  | Empty_list => True
  end.
Proof.
  unfold parse_args. intros H.
  destruct (classify argv) as [e|pattern] eqn:Hc; [discriminate|].
  destruct (consume pattern [] initial) as [r|st] eqn:Hs; [discriminate|].
  destruct (positionals st) eqn:Hp; [discriminate|].
  destruct (extras st); [|discriminate]. injection H as <-.
  assert (Hinv : match log_level (namespace st) with
                 | Text level =>
                     Str.mem level
                       [lit "DEBUG"; lit "INFO"; lit "WARNING"; lit "ERROR"]
                     = true
                 | Empty_list => True
                 end).
  { apply (consume_invariant
             (fun st => match log_level (namespace st) with
                        | Text level =>
                            Str.mem level
                              [lit "DEBUG"; lit "INFO"; lit "WARNING";
                               lit "ERROR"] = true
                        | Empty_list => True
                        end))
      with (n := length pattern) (pattern := pattern) (run := [])
           (st := initial); auto; try reflexivity.
    - intros run st0 H0. unfold consume_positionals.
      destruct (if positionals st0 then _ else _); exact H0.
    - intros a v st0 st1 Ha H0. unfold take_action in Ha.
      destruct a as [|d|d]; [discriminate| |].
      + destruct (Str.eqb (default [] v) (lit "--"));
          [destruct d; injection Ha as <-; first [exact H0 | exact I]|].
        destruct d; unfold choices in Ha; try (injection Ha as <-; exact H0).
        destruct (Str.mem (default [] v) _) eqn:Hm; [|discriminate].
        injection Ha as <-. exact Hm.
      + injection Ha as <-. exact H0. }
  destruct (log_level (namespace st)); [apply mem_In; exact Hinv | exact I].
Qed.

Lemma consume_arguments (l : list pystr) :
  forall run st,
    consume (map (fun s => (s, A)) l) run st
    = inr (consume_positionals (run ++ map (fun s => (s, A)) l) st).
Proof.
  induction l as [|s l IH]; intros run st; simpl.
  - rewrite app_nil_r. reflexivity.
  - rewrite IH, <- app_assoc. reflexivity.
Qed.

Lemma match_rest_arguments (l : list pystr) :
  match_rest (map (fun s => (s, A)) l).*2 = length l.
Proof.
  induction l as [|s l IH]; [reflexivity|].
  simpl. f_equal. exact IH.
Qed.

Lemma fst_arguments (l : list pystr) : (map (fun s => (s, A)) l).*1 = l.
Proof.
  induction l as [|s l IH]; [reflexivity|].
  simpl. f_equal. exact IH.
Qed.

Lemma match_arguments (l : list pystr) :
  match_one_or_more (map (fun s => (s, A)) l).*2 = length l.
Proof.
  destruct l as [|s l]; [reflexivity|].
  simpl. f_equal. apply match_rest_arguments.
Qed.

Lemma match_separator (s : pystr) (l : list pystr) :
  l <> [] ->
  match_one_or_more ((s, Dash) :: map (fun s => (s, A)) l).*2 = S (length l).
Proof.
  intros Hne. pose proof (match_arguments l) as H.
  destruct l as [|u l]; [congruence|].
  change (match match_one_or_more (map (fun s => (s, A)) (u :: l)).*2 with
          | 0%nat => 0%nat
          | S n => S (S n)
          end = S (length (u :: l))).
  rewrite H. reflexivity.
Qed.

(** [urls] takes a whole run of arguments, with a separator in front
    or not. *)
Lemma consume_positionals_run (run : list (pystr * cls)) (st : state) :
  positionals st = true -> run <> [] ->
  match_one_or_more run.*2 = length run ->
  consume_positionals run st
  = {| namespace := set_urls (remove_dashes run.*1) (namespace st);
       positionals := false;
       extras := extras st |}.
Proof.
  intros Hp Hne Hm. unfold consume_positionals. rewrite Hp, Hm.
  destruct run as [|t run]; [congruence|].
  cbv iota beta.
  replace (length (t :: run)) with (length (t :: run).*1)
    by apply length_fmap.
  rewrite firstn_all, skipn_all, app_nil_r. reflexivity.
Qed.

Lemma lit_dash : lit "-" = [45%N].
Proof. reflexivity. Qed.

Lemma lit_dashes : lit "--" = [45%N; 45%N].
Proof. reflexivity. Qed.

Lemma plain_not_dashes (s : pystr) :
  is_plain s = true -> Str.eqb s (lit "--") = false.
Proof.
  unfold is_plain. rewrite lit_dash, lit_dashes.
  destruct s as [|c s]; [reflexivity|].
  simpl. destruct (c =? 45)%N; simpl; [|reflexivity].
  destruct s; simpl; intros H; discriminate H.
Qed.

Lemma plain_positional (s : pystr) :
  is_plain s = true -> parse_optional s = inr None.
Proof.
  unfold is_plain. rewrite lit_dash.
  destruct s as [|c s]; [reflexivity|].
  simpl. destruct (c =? 45)%N; simpl; [|reflexivity].
  destruct s; simpl; intros H; discriminate H.
Qed.

Lemma classify_plain (argv : list pystr) :
  Forall (fun s => is_plain s = true) argv ->
  classify argv = inr (map (fun s => (s, A)) argv).
Proof.
  induction 1 as [|s l Hs _ IH]; simpl; [reflexivity|].
  rewrite (plain_not_dashes s Hs), (plain_positional s Hs), IH. reflexivity.
Qed.

Lemma remove_dashes_plain (l : list pystr) :
  Forall (fun s => is_plain s = true) l -> remove_dashes l = l.
Proof.
  induction 1 as [|s l Hs _ IH]; simpl; [reflexivity|].
  rewrite (plain_not_dashes s Hs), IH. reflexivity.
Qed.

(** A command line of strings that do not start with [-]: they are the
    URLs, and every option has its default. *)
Lemma parse_args_plain (argv : list pystr) :
  argv <> [] -> Forall (fun s => is_plain s = true) argv ->
  parse_args argv = inr (set_urls argv defaults).
Proof.
  intros Hne Hplain. unfold parse_args.
  rewrite (classify_plain argv Hplain), consume_arguments.
  rewrite app_nil_l, consume_positionals_run.
  - rewrite fst_arguments, (remove_dashes_plain argv Hplain). reflexivity.
  - reflexivity.
  - destruct argv; [congruence | discriminate].
  - rewrite match_arguments, length_map. reflexivity.
Qed.

Lemma classify_separator (rest : list pystr) :
  classify (lit "--" :: rest)
  = inr ((lit "--", Dash) :: map (fun s => (s, A)) rest).
Proof. reflexivity. Qed.

Lemma consume_separator (rest : list pystr) (st : state) :
  consume ((lit "--", Dash) :: map (fun s => (s, A)) rest) [] st
  = inr (consume_positionals
           ((lit "--", Dash) :: map (fun s => (s, A)) rest) st).
Proof. apply (consume_arguments rest [(lit "--", Dash)]). Qed.

(** After the separator [--] every string is a URL, whatever it looks
    like. *)
Lemma parse_args_separator (rest : list pystr) :
  rest <> [] ->
  parse_args (lit "--" :: rest) = inr (set_urls rest defaults).
Proof.
  intros Hne. unfold parse_args.
  rewrite classify_separator, consume_separator, consume_positionals_run.
  - change (((lit "--", Dash) :: map (fun s => (s, A)) rest).*1)
      with (lit "--" :: (map (fun s => (s, A)) rest).*1).
    rewrite fst_arguments. reflexivity.
  - reflexivity.
  - discriminate.
  - rewrite (match_separator _ _ Hne). simpl. rewrite length_map. reflexivity.
Qed.
End ArgParseMore.

Section ParseArgsMore.
Context {E : environment}.

(** X5: the [log_level] attribute of the namespace that [parse_args]
    returns is one of the four declared choices, so that the lookup
    [getattr(logging, args.log_level)] of line 353 finds a level, or it
    is the empty list that [argparse] stores, without a look at the
    choices, when the value given is [--]. *)
Theorem log_level_is_a_choice (argv : list pystr) (w w' : world)
    (tr : list event) (ns : Namespace (list pystr)) :
  parse_args argv w = (tr, w', Returns ns) ->
  log_level ns = Empty_list \/
  exists level,
    log_level ns = Text level /\
    In level [lit "DEBUG"; lit "INFO"; lit "WARNING"; lit "ERROR"].
Proof.
  intros H.
  destruct (parse_args_outcome argv w)
    as [[H' _]|[[e [H' _]]|[[raw [H' _]]
                           |[t [w1 [args [raw [H' [Hraw [_ Hl]]]]]]]]]];
    rewrite H' in H; try discriminate.
  injection H as _ _ <-. rewrite Hl.
  apply ArgParseMore.parse_args_log_level in Hraw.
  destruct (log_level raw) as [level|]; [right | left; reflexivity].
  exists level. split; [reflexivity | exact Hraw].
Qed.

(** X6: a command line made of one or more strings that do not start with
    [-] is a list of URLs: [parse_args] returns them all, in order, with
    the default of every option, without touching the file system. *)
Theorem plain_urls_give_defaults (argv : list pystr) (w : world) :
  argv <> [] -> Forall (fun s => is_plain s = true) argv ->
  parse_args argv w = ([], w, Returns (default_namespace argv)).
Proof.
  intros Hne Hplain.
  rewrite parse_args_run, (ArgParseMore.parse_args_plain argv Hne Hplain).
  reflexivity.
Qed.

(** X7: after the separator [--] every string is a URL, also one that
    starts with [-]: [parse_args] returns the strings after the
    separator as the URLs, with the default of every option. *)
Theorem separator_makes_urls (rest : list pystr) (w : world) :
  rest <> [] ->
  parse_args (lit "--" :: rest) w = ([], w, Returns (default_namespace rest)).
Proof.
  intros Hne.
  rewrite parse_args_run, (ArgParseMore.parse_args_separator rest Hne).
  reflexivity.
Qed.

End ParseArgsMore.

Lemma log_level_is_a_choice_witness :
  (exists ns,
      parse_args (E := demo) [lit "--log-level"; lit "DEBUG"; lit "u"] tt
      = ([], tt, Returns ns) /\
      log_level ns = Text (lit "DEBUG")) /\
  (exists ns,
      parse_args (E := demo) [lit "--log-level=--"; lit "u"] tt
      = ([], tt, Returns ns) /\
      log_level ns = Empty_list /\
      main (E := demo) [] (Some [lit "--log-level=--"; lit "u"]) tt
      = ([], tt, Raises (Exception "TypeError"))).
Proof.
  split.
  - eexists. split; [vm_compute; reflexivity|].
    destruct (log_level_is_a_choice (E := demo)
                [lit "--log-level"; lit "DEBUG"; lit "u"] tt tt [] _ eq_refl)
      as [H|[level [H _]]]; [discriminate H|].
    vm_compute. reflexivity.
  - eexists. split; [vm_compute; reflexivity|].
    split; vm_compute; reflexivity.
Defined.

Lemma plain_urls_give_defaults_witness :
  parse_args (E := demo) [lit "https://a.example/v"; lit "u2"] tt
  = ([], tt, Returns (default_namespace [lit "https://a.example/v"; lit "u2"])).
Proof.
  apply (plain_urls_give_defaults (E := demo)).
  - discriminate.
  - repeat constructor.
Defined.

Lemma separator_makes_urls_witness :
  parse_args (E := demo) [lit "--"; lit "-q"; lit "--help"] tt
  = ([], tt, Returns (default_namespace [lit "-q"; lit "--help"])).
Proof.
  apply (separator_makes_urls (E := demo)). discriminate.
Defined.

(** ** Further properties of download_videos *)

Lemma iterations_accounting (urls_ : list pystr) (t : list event) :
  iterations urls_ t ->
  sublist (failures None t) urls_ /\
  (length (downloads t) + length (failures None t) = length urls_)%nat.
Proof.
  induction 1 as [|url rest t1 t2 H1 H2 [IHs IHl]].
  - split; [constructor | reflexivity].
  - rewrite (iteration_failures url rest t1 t2 H1 H2).
    unfold downloads in *. rewrite omap_app, length_app.
    destruct H1; simpl.
    + split; [apply sublist_cons; exact IHs | lia].
    + split; [apply sublist_skip; exact IHs | lia].
    + split; [apply sublist_skip; exact IHs | lia].
Qed.

Lemma not_closed (pre post : list event) (e : exn) :
  closed (pre ++ Lib_close (Raise e) :: post) = false.
Proof. unfold closed. rewrite forallb_app. apply andb_false_r. Qed.

Lemma downloads_app (t1 t2 : list event) :
  downloads (t1 ++ t2) = downloads t1 ++ downloads t2.
Proof. apply omap_app. Qed.

Section DownloadMore.
Context {E : environment}.

(** X9: when the [YoutubeDL] object is constructed, the calls of the
    loop raise instances of [Exception] only and the exit of the
    [with] block does not raise, every URL is accounted for once: the
    number of calls of [logging.info] with the message [Downloaded]
    plus the number of failed URLs is the number of URLs, and the
    failed URLs are a subsequence of the input.  After the loop the
    [with] block is left and the summary follows: nothing when no URL
    failed, otherwise one call of [logging.warning] with the number of
    failed URLs and the URLs joined by newlines, as the last event. *)
Theorem download_videos_accounting (urls_ : list pystr)
    (args : Namespace (list pystr)) (w w' : world) (tr : list event)
    (o : outcome (list pystr)) :
  download_videos urls_ args w = (tr, w', o) ->
  constructed tr = true -> only_Exceptions tr = true -> closed tr = true ->
  exists failed body,
    o = Returns failed /\
    (length (downloads tr) + length failed = length urls_)%nat /\
    sublist failed urls_ /\
    tr = body ++ Lib_close (Return tt) :: summary failed /\
    last tr
    = Some (match failed with
            | [] => Lib_close (Return tt)
            | _ :: _ =>
                Log warning summary_msg
                  [VInt (Z.of_nat (length failed));
                   VStr (Str.join [10%N] failed)]
            end).
Proof.
  intros Hrun Hcons Hexc Hclosed.
  destruct (download_videos_ended _ _ _ _ _ _ Hrun Hcons Hexc)
    as [t_check [w1 [cookies_file [w2 [t_loop [r H]]]]]].
  destruct H as [Hc [Hfree [Hy [Hi [_ [Hx [-> ->]]]]]]].
  destruct (iterations_accounting _ _ Hi) as [Hsub Hlen].
  destruct r as [[]|e].
  - exists (failures None t_loop),
      ((t_check
        ++ [Log debug ydl_opts_msg
              [VDict (restrict logged_keys (ydl_opts_for args cookies_file))]])
       ++ Lib_YoutubeDL (ydl_opts_for args cookies_file) (Return tt)
       :: t_loop).
    split; [reflexivity|]. split; [|split; [exact Hsub|split]].
    + assert (Hcheck : downloads t_check = []).
      { clear -Hc. unfold checked_cookies in Hc.
        destruct (cookies args) as [[p|]|];
          [destruct (Str.truthy p)| |];
          unfold bind, isfile, ret in Hc;
          try (injection Hc as <- _ _; reflexivity).
        destruct (os_path_isfile p w) as [b w'].
        injection Hc as <- _ _. reflexivity. }
      assert (Hsum : downloads (summary (failures None t_loop)) = [])
        by (destruct (failures None t_loop); reflexivity).
      rewrite !downloads_app, Hcheck.
      change (downloads (Lib_YoutubeDL (ydl_opts_for args cookies_file)
                           (Return tt)
                         :: t_loop
                         ++ Lib_close (Return tt)
                         :: summary (failures None t_loop)))
        with (downloads (t_loop
                         ++ Lib_close (Return tt)
                         :: summary (failures None t_loop))).
      rewrite downloads_app.
      change (downloads (Lib_close (Return tt)
                         :: summary (failures None t_loop)))
        with (downloads (summary (failures None t_loop))).
      rewrite Hsum, !app_nil_r. simpl. exact Hlen.

    + rewrite <- !app_assoc. reflexivity.
    + set (head := t_check ++ _).
      set (new := Lib_YoutubeDL _ _).
      destruct (failures None t_loop) as [|u failed].
      * replace (head ++ new :: t_loop ++ Lib_close (Return tt) :: summary [])
          with ((head ++ new :: t_loop) ++ [Lib_close (Return tt)])
          by (rewrite <- app_assoc; reflexivity).
        apply last_snoc.
      * replace (head ++ new :: t_loop
                      ++ Lib_close (Return tt) :: summary (u :: failed))
          with ((head ++ new :: t_loop ++ [Lib_close (Return tt)])
                ++ summary (u :: failed))
          by (rewrite <- !app_assoc; simpl; rewrite <- !app_assoc;
              reflexivity).
        apply last_snoc.
  - exfalso. revert Hclosed.
    set (head := t_check ++ _). set (new := Lib_YoutubeDL _ _).
    replace (head ++ new :: t_loop ++ [Lib_close (Raise e)])
      with ((head ++ new :: t_loop) ++ Lib_close (Raise e) :: [])
      by (rewrite <- app_assoc; reflexivity).
    rewrite not_closed. discriminate.
Qed.
End DownloadMore.

Lemma download_videos_accounting_witness :
  let run :=
    download_videos (E := demo) [lit "a"; lit "bad"; lit "b"] demo_args tt in
  run.2 = Returns [lit "bad"] /\
  downloads run.1.1 = [lit "video.mp4"; lit "video.mp4"] /\
  last run.1.1
  = Some (Log warning summary_msg [VInt 1; VStr (lit "bad")]).
Proof.
  intros run.
  assert (Hrun : run = (run.1.1, run.1.2, run.2))
    by (destruct run as [[tr w'] o]; reflexivity).
  assert (Hcons : constructed run.1.1 = true) by (vm_compute; reflexivity).
  assert (Hexc : only_Exceptions run.1.1 = true) by (vm_compute; reflexivity).
  assert (Hclosed : closed run.1.1 = true) by (vm_compute; reflexivity).
  destruct (download_videos_accounting (E := demo) _ _ _ _ _ _
              Hrun Hcons Hexc Hclosed)
    as [failed [body [Ho [_ [_ [_ Hlast]]]]]].
  assert (Hfailed : failed = [lit "bad"]).
  { assert (Hr : run.2 = Returns [lit "bad"]) by (vm_compute; reflexivity).
    rewrite Hr in Ho. injection Ho as <-. reflexivity. }
  subst failed.
  split; [exact Ho|]. split; [vm_compute; reflexivity|]. exact Hlast.
Defined.

(** ** Normalising the languages twice *)

Lemma lstrip_id (s : pystr) :
  (forall c, head s = Some c -> Str.isspace c = false) -> Str.lstrip s = s.
Proof.
  destruct s as [|c s]; [reflexivity|].
  intros H. simpl. rewrite (H c eq_refl). reflexivity.
Qed.

Lemma head_rev {A} (l : list A) : head (rev l) = last l.
Proof. rewrite <- last_rev, rev_involutive. reflexivity. Qed.

Lemma rstrip_id (s : pystr) :
  (forall c, last s = Some c -> Str.isspace c = false) -> Str.rstrip s = s.
Proof.
  intros H. unfold Str.rstrip. rewrite lstrip_id.
  - apply rev_involutive.
  - intros c. rewrite head_rev. apply H.
Qed.

Lemma strip_id (s : pystr) : Str.trimmed s -> Str.strip s = s.
Proof.
  intros [Hh Hl]. unfold Str.strip.
  rewrite (lstrip_id s Hh). apply rstrip_id. exact Hl.
Qed.

Lemma strip_In (s : pystr) (c : N) : In c (Str.strip s) -> In c s.
Proof.
  unfold Str.strip. intros H.
  destruct (rstrip_prefix (Str.lstrip s)) as [sp Hsp].
  destruct (lstrip_suffix s) as [sp' [Hs _]].
  rewrite Hs. apply in_or_app. right.
  rewrite Hsp. apply in_or_app. left. exact H.
Qed.

Lemma split_no_sep (sep : N) (s : pystr) :
  Forall (fun p => ~ In sep p) (Str.split sep s).
Proof.
  induction s as [|c s IH]; simpl.
  - constructor; [intros [] | constructor].
  - destruct (c =? sep)%N eqn:Hc.
    + constructor; [intros [] | exact IH].
    + destruct (Str.split sep s) as [|p ps].
      * constructor; [|constructor].
        intros [Heq|[]]. subst c. rewrite N.eqb_refl in Hc. discriminate.
      * inversion IH; subst. constructor; [|assumption].
        intros [Heq|Hin]; [|contradiction].
        subst c. rewrite N.eqb_refl in Hc. discriminate.
Qed.

Lemma split_piece (sep : N) (p rest : pystr) :
  ~ In sep p ->
  Str.split sep (p ++ sep :: rest) = p :: Str.split sep rest.
Proof.
  induction p as [|c p IH]; intros Hp; simpl.
  - rewrite N.eqb_refl. reflexivity.
  - destruct (c =? sep)%N eqn:Hc.
    + apply N.eqb_eq in Hc. subst c. exfalso. apply Hp. left. reflexivity.
    + rewrite IH; [reflexivity|]. intros Hin. apply Hp. right. exact Hin.
Qed.

Lemma split_last_piece (sep : N) (p : pystr) :
  ~ In sep p -> Str.split sep p = [p].
Proof.
  induction p as [|c p IH]; intros Hp; simpl; [reflexivity|].
  destruct (c =? sep)%N eqn:Hc.
  - apply N.eqb_eq in Hc. subst c. exfalso. apply Hp. left. reflexivity.
  - rewrite IH; [reflexivity|]. intros Hin. apply Hp. right. exact Hin.
Qed.

(** Splitting undoes joining, for pieces without the separator. *)
Lemma split_join (sep : N) (l : list pystr) :
  l <> [] -> Forall (fun p => ~ In sep p) l ->
  Str.split sep (Str.join [sep] l) = l.
Proof.
  induction l as [|p l IH]; intros Hne Hl; [congruence|].
  inversion Hl as [|? ? Hp Hl']; subst.
  destruct l as [|q l].
  - simpl. apply split_last_piece. exact Hp.
  - change (Str.join [sep] (p :: q :: l))
      with (p ++ sep :: Str.join [sep] (q :: l)).
    rewrite (split_piece sep p _ Hp), IH; [reflexivity| |exact Hl'].
    discriminate.
Qed.

Lemma strip_langs_no_comma (raw : pystr) :
  Forall (fun s => ~ In 44%N s) (strip_langs raw).
Proof.
  apply List.Forall_forall. intros s Hs Hin.
  apply strip_langs_spec in Hs. destruct Hs as [piece [Hp [-> _]]].
  apply strip_In in Hin.
  pose proof (split_no_sep 44 raw) as Hall.
  rewrite List.Forall_forall in Hall. exact (Hall piece Hp Hin).
Qed.

Lemma strip_filter_id (l : list pystr) :
  Forall (fun s => s <> [] /\ Str.trimmed s) l ->
  Str.strip <$> List.filter (fun s => Str.truthy (Str.strip s)) l = l.
Proof.
  induction 1 as [|s l [Hne Ht] _ IH]; [reflexivity|].
  simpl. rewrite (strip_id s Ht).
  destruct s as [|c s]; [congruence|]. simpl.
  change (Str.strip (c :: s) :: (Str.strip <$> List.filter
            (fun s => Str.truthy (Str.strip s)) l) = (c :: s) :: l).
  rewrite (strip_id (c :: s) Ht), IH. reflexivity.
Qed.

(** X10: the normalisation of line 319 is idempotent: joining the list it
    yields with commas and normalising again gives the same list. *)
Theorem strip_langs_idempotent (raw : pystr) :
  strip_langs (Str.join [44%N] (strip_langs raw)) = strip_langs raw.
Proof.
  destruct (strip_langs raw) as [|s l] eqn:Hl; [reflexivity|].
  unfold strip_langs at 1.
  pose proof (strip_langs_no_comma raw) as Hc.
  pose proof (strip_langs_trimmed raw) as Ht.
  rewrite Hl in Hc, Ht.
  rewrite (split_join 44 (s :: l)); [|discriminate|exact Hc].
  apply strip_filter_id. exact Ht.
Qed.

(** ** One option in front of the URLs *)

Module ArgParseOption.
Import ArgParse.

(** An option string in front of a value and plain URLs is classified
    as an option, its value and the URLs as arguments. *)
Lemma classify_option (arg : pystr) (a : action) (rest : list pystr) :
  Str.eqb arg (lit "--") = false ->
  parse_optional arg = inr (Some (Some a, arg, None)) ->
  Forall (fun s => is_plain s = true) rest ->
  classify (arg :: rest)
  = inr ((arg, O (Some a) arg None) :: map (fun s => (s, A)) rest).
Proof.
  intros Hd Hp Hrest. simpl.
  rewrite Hd, Hp, (ArgParseMore.classify_plain rest Hrest). reflexivity.
Qed.

(** What [argparse] does with [option value url ...] for an option that
    stores its value: the value is checked against the choices, if any,
    stored, and the remaining strings are the URLs. *)
Lemma parse_args_store (arg value : pystr) (d : store_dest)
    (urls_ : list pystr) :
  Str.eqb arg (lit "--") = false ->
  parse_optional arg = inr (Some (Some (store d), arg, None)) ->
  Forall (fun s => is_plain s = true) (value :: urls_) ->
  urls_ <> [] ->
  parse_args (arg :: value :: urls_)
  = match choices d with
    | Some cs =>
        if Str.mem value cs
        then inr (set_urls urls_ (set_store d (Text value) defaults))
        else inl (Error (invalid_choice value))
    | None => inr (set_urls urls_ (set_store d (Text value) defaults))
    end.
Proof.
  intros Hd Hp Hplain Hne. unfold parse_args.
  rewrite (classify_option arg (store d) (value :: urls_) Hd Hp Hplain).
  inversion Hplain as [|? ? Hv Hu]; subst.
  change (consume ((arg, O (Some (store d)) arg None)
                     :: map (fun s => (s, A)) (value :: urls_)) [] initial)
    with (match take_action (store d) (Some value)
                  (consume_positionals [] initial) with
          | inl r => inl r
          | inr st' => consume (map (fun s => (s, A)) urls_) [] st'
          end).
  unfold take_action.
  change (consume_positionals [] initial) with initial.
  change (default [] (Some value)) with value.
  rewrite (ArgParseMore.plain_not_dashes value Hv).
  assert (Hrun : forall st,
             positionals st = true -> extras st = [] ->
             match consume (map (fun s => (s, A)) urls_) [] st with
             | inl r => inl r
             | inr st0 =>
                 if positionals st0 then inl (Error required_urls)
                 else match extras st0 with
                      | [] => inr (namespace st0)
                      | _ :: _ =>
                          inl (Error (unrecognized_arguments (extras st0)))
                      end
             end = inr (set_urls urls_ (namespace st))).
  { intros st Hpos Hex.
    rewrite ArgParseMore.consume_arguments, app_nil_l,
      ArgParseMore.consume_positionals_run.
    - simpl. rewrite Hex, ArgParseMore.fst_arguments,
        (ArgParseMore.remove_dashes_plain urls_ Hu). reflexivity.
    - exact Hpos.
    - destruct urls_; [congruence | discriminate].
    - rewrite ArgParseMore.match_arguments, length_map. reflexivity. }
  destruct (choices d) as [cs|].
  - destruct (Str.mem value cs); [|reflexivity].
    apply Hrun; reflexivity.
  - apply Hrun; reflexivity.
Qed.
End ArgParseOption.

Section OneOption.
Context {E : environment}.

(** X11: with [-c path url ...], where the path is not empty: if
    [os.path.isfile] answers false, [parse_args] logs the warning of
    line 322 and returns the namespace with [cookies] set to [None]; if
    it answers true, [cookies] is the path.  Either way the file system
    is asked once and the URLs and the other attributes are as without
    the option. *)
Theorem cookies_option (path : pystr) (urls_ : list pystr) (w : world) :
  path <> [] ->
  Forall (fun s => is_plain s = true) (path :: urls_) ->
  urls_ <> [] ->
  parse_args (lit "-c" :: path :: urls_) w
  = if (os_path_isfile path w).1
    then ([OS_isfile path true], (os_path_isfile path w).2,
          Returns (set_cookies (Some (Text path))
                     (default_namespace urls_)))
    else ([OS_isfile path false; Log warning cookies_warning [VStr path]],
          (os_path_isfile path w).2,
          Returns (default_namespace urls_)).
Proof.
  intros Hne Hplain Hurls.
  rewrite parse_args_run,
    (ArgParseOption.parse_args_store (lit "-c") path ArgParse.dest_cookies
       urls_ eq_refl eq_refl Hplain Hurls).
  destruct path as [|c path]; [congruence|].
  simpl. destruct (os_path_isfile (c :: path) w).1; reflexivity.
Qed.

(** X12: with [--log-level value url ...], a value that is not one of
    [DEBUG], [INFO], [WARNING] and [ERROR] makes the parser leave with
    status 2 and the message [invalid choice]; a value that is one of
    them ends up in the namespace. *)
Theorem log_level_option (value : pystr) (urls_ : list pystr) (w : world) :
  Forall (fun s => is_plain s = true) (value :: urls_) ->
  urls_ <> [] ->
  parse_args (lit "--log-level" :: value :: urls_) w
  = if Str.mem value [lit "DEBUG"; lit "INFO"; lit "WARNING"; lit "ERROR"]
    then ([], w,
          Returns
            {| urls := urls_; output_dir := None; cookies := None;
               langs := langs (default_namespace urls_);
               ffmpeg := None; quiet := false; log_level := Text value;
               auto_sub := false; no_playlist := false;
               playlist_items := None; write_infojson := false;
               clean_infojson := false |})
    else ([Print_error (invalid_choice value)], w, Exits 2).
Proof.
  intros Hplain Hurls.
  rewrite parse_args_run,
    (ArgParseOption.parse_args_store (lit "--log-level") value
       ArgParse.dest_log_level urls_ eq_refl eq_refl Hplain Hurls).
  unfold ArgParse.choices.
  destruct (Str.mem value _); reflexivity.
Qed.
End OneOption.

Lemma cookies_option_witness :
  parse_args (E := demo) [lit "-c"; lit "missing.txt"; lit "u"] tt
  = ([ OS_isfile (lit "missing.txt") false;
       Log warning cookies_warning [VStr (lit "missing.txt")] ],
     tt, Returns (default_namespace [lit "u"])).
Proof.
  apply (cookies_option (E := demo) (lit "missing.txt") [lit "u"] tt).
  - discriminate.
  - repeat constructor.
  - discriminate.
Defined.

Lemma log_level_option_witness :
  parse_args (E := demo) [lit "--log-level"; lit "debug"; lit "u"] tt
  = ([Print_error (invalid_choice (lit "debug"))], tt, Exits 2).
Proof.
  apply (log_level_option (E := demo) (lit "debug") [lit "u"] tt).
  - repeat constructor.
  - discriminate.
Defined.

(** ** The debug log of the options, and the empty list of URLs *)

Lemma restrict_lookup_from (keys : list string) (d m : dict) (k : string) :
  fold_left
    (fun m k => match d !! k with
                | Some v => <[k := v]> m
                | None => m
                end) keys m !! k
  = match (if bool_decide (k ∈ keys) then d !! k else None) with
    | Some v => Some v
    | None => m !! k
    end.
Proof.
  revert m. induction keys as [|a keys IH]; intros m; [reflexivity|].
  simpl fold_left. rewrite IH.
  destruct (decide (k ∈ keys)) as [Hk|Hk].
  - rewrite !bool_decide_eq_true_2;
      [|apply elem_of_cons; right; exact Hk|exact Hk].
    destruct (d !! k) as [v|] eqn:Hd; [reflexivity|].
    destruct (d !! a) as [va|] eqn:Ha; [|reflexivity].
    apply lookup_insert_ne. intros ->. congruence.
  - rewrite (bool_decide_eq_false_2 _ Hk).
    destruct (decide (a = k)) as [->|Hne].
    + rewrite bool_decide_eq_true_2 by (apply elem_of_cons; left; reflexivity).
      destruct (d !! k) as [v|]; [apply lookup_insert_eq | reflexivity].
    + rewrite bool_decide_eq_false_2.
      * destruct (d !! a); [apply lookup_insert_ne; exact Hne | reflexivity].
      * intros Hin. apply elem_of_cons in Hin. destruct Hin; congruence.
Qed.

Lemma restrict_lookup (keys : list string) (d : dict) (k : string) :
  restrict keys d !! k = if bool_decide (k ∈ keys) then d !! k else None.
Proof.
  unfold restrict. rewrite restrict_lookup_from.
  destruct (if bool_decide (k ∈ keys) then d !! k else None); reflexivity.
Qed.

Lemma display_logged (output_dir_ : option pystr) (langs_ : list pystr)
    (quiet_ : bool) (k : string) :
  In k logged_keys ->
  is_Some (ydl_opts_display output_dir_ langs_ quiet_ !! k).
Proof.
  intros Hin. unfold ydl_opts_display.
  destruct output_dir_ as [[|c o]|]; simpl in Hin;
    repeat (destruct Hin as [<-|Hin]; [vm_compute; eauto|]);
    destruct Hin.
Qed.

Section DebugLog.
Context {E : environment}.

(** X13: the dictionary written to the debug log holds the ten listed
    settings, each with its value in the option map: the test
    [if k in ydl_opts] never drops one.  It holds nothing else; in
    particular the path of the cookies file is not logged. *)
Theorem debug_log_settings (args : Namespace (list pystr))
    (cookies_file : option pystr) :
  let ydl_opts := ydl_opts_for args cookies_file in
  let logged := restrict logged_keys ydl_opts in
  (forall k, In k logged_keys ->
             is_Some (logged !! k) /\ logged !! k = ydl_opts !! k) /\
  (forall k, ~ In k logged_keys -> logged !! k = None) /\
  logged !! "cookiefile" = None.
Proof.
  cbv zeta. split; [|split].
  - intros k Hin. rewrite restrict_lookup.
    rewrite bool_decide_eq_true_2 by (apply list_elem_of_In; exact Hin).
    split; [|reflexivity].
    pose proof (display_logged (optional_str (output_dir args)) (langs args)
                  (quiet args) k Hin) as Hd.
    unfold ydl_opts_for, build_ytdl_opts. simpl in Hin.
    repeat (destruct Hin as [<-|Hin];
            [destruct (write_infojson args); skip_updates; exact Hd|]).
    destruct Hin.
  - intros k Hk. rewrite restrict_lookup.
    rewrite bool_decide_eq_false_2; [reflexivity|].
    intros Hin. apply Hk, list_elem_of_In. exact Hin.
  - rewrite restrict_lookup. reflexivity.
Qed.

(** X14: on an empty list of URLs [download_videos] still builds the
    option map and constructs the [YoutubeDL] object; when the
    construction and the exit of the [with] block do not raise, it
    leaves the block at once: it calls neither [extract_info] nor
    [prepare_filename], logs no summary and ends with an empty
    [failed]. *)
Theorem download_videos_no_urls (args : Namespace (list pystr))
    (w w' : world) (tr : list event) (o : outcome (list pystr)) :
  download_videos [] args w = (tr, w', o) ->
  constructed tr = true -> closed tr = true ->
  exists t_check cookies_file,
    tr = t_check
         ++ [ Log debug ydl_opts_msg
                [VDict (restrict logged_keys
                          (ydl_opts_for args cookies_file))];
              Lib_YoutubeDL (ydl_opts_for args cookies_file) (Return tt);
              Lib_close (Return tt) ] /\
    Forall (fun ev => is_lib ev = false) t_check /\
    o = Returns [].
Proof.
  intros Hrun Hcons Hclosed.
  assert (Hexc : only_Exceptions tr = true).
  { destruct (download_videos_trace [] args w)
      as [t_check [cookies_file [r [rest [Hc [Htr Hrest]]]]]].
    rewrite Hrun in Htr. simpl in Htr. rewrite Htr.
    unfold only_Exceptions. rewrite !forallb_app. simpl.
    assert (Hcheck : forallb
                       (fun ev => match item_raised ev with
                                  | Some e => is_Exception e
                                  | None => true
                                  end) t_check = true)
      by (destruct Hc as [[-> _]|[p [b [_ [_ [-> _]]]]]]; reflexivity).
    rewrite Hcheck. simpl.
    destruct Hrest as [->|[t_loop [r' [failed [Hloop ->]]]]]; [reflexivity|].
    assert (t_loop = []) as ->.
    { destruct Hloop as [Hi|[e Hi]].
      - inversion Hi. reflexivity.
      - inversion Hi as [done url rest' t1 t2 _ _ Hurls].
        destruct done; discriminate Hurls. }
    destruct failed; reflexivity. }
  destruct (download_videos_ended _ _ _ _ _ _ Hrun Hcons Hexc)
    as [t_check [w1 [cookies_file [w2 [t_loop [r H]]]]]].
  destruct H as [_ [Hfree [_ [Hi [_ [_ [-> ->]]]]]]].
  inversion Hi; subst t_loop.
  exists t_check, cookies_file.
  destruct r as [[]|e].
  - split; [rewrite <- app_assoc; reflexivity|].
    split; [exact Hfree | reflexivity].
  - exfalso. revert Hclosed.
    set (head := t_check ++ _). set (new := Lib_YoutubeDL _ _).
    replace (head ++ new :: [] ++ [Lib_close (Raise e)])
      with ((head ++ [new]) ++ Lib_close (Raise e) :: [])
      by (rewrite <- app_assoc; reflexivity).
    rewrite not_closed. discriminate.
Qed.
End DebugLog.

Lemma download_videos_no_urls_witness :
  let run := download_videos (E := demo) [] demo_args tt in
  run.1.1
  = [ Log debug ydl_opts_msg
        [VDict (restrict logged_keys (ydl_opts_for demo_args None))];
      Lib_YoutubeDL (ydl_opts_for demo_args None) (Return tt);
      Lib_close (Return tt) ] /\
  run.2 = Returns [].
Proof.
  intros run.
  assert (Hrun : run = (run.1.1, run.1.2, run.2))
    by (destruct run as [[tr w'] o]; reflexivity).
  assert (Hcons : constructed run.1.1 = true) by (vm_compute; reflexivity).
  assert (Hclosed : closed run.1.1 = true) by (vm_compute; reflexivity).
  destruct (download_videos_no_urls (E := demo) _ _ _ _ _
              Hrun Hcons Hclosed)
    as [t_check [cookies_file [_ [_ Ho]]]].
  split; [vm_compute; reflexivity | exact Ho].
Defined.

(** ** The module run as a script *)


Section Script.
Context {E : environment}.


End Script.

